(** * Alpha remapping of boundary graphics: scripts/make_boundary_translucent.py

    Shallow embedding of the alpha-mode detector [_detect_alpha_modes], of
    the per-pixel remapper [transform_image] and of the batch driver
    [process_folder] / [main].

    An image, as returned by Pillow's [Image.open(..).convert("RGBA")], is
    modelled by its size and its pixels in row-major order:
    [img.getpixel((x, y))] is the pixel at index [y * width + x].
    Channels are 8-bit unsigned integers, kept as [nat] (0..255).

    Module [ExportIcons] embeds graphics/export_icons.py, the Inkscape
    driver that exports the icon sheet. *)

From Stdlib Require Import String Ascii ZArith.
From stdpp Require Import base list sorting.

Open Scope nat_scope.

Record pixel := mkPixel { red : nat; green : nat; blue : nat; alpha : nat }.

#[global] Instance pixel_inhabited : Inhabited pixel := populate (mkPixel 0 0 0 0).

Record image := mkImage { width : nat; height : nat; data : list pixel }.

(** A decoded RGBA image: [width * height] pixels, all channels 8-bit. *)
Definition wf_image (img : image) : Prop :=
  length (data img) = width img * height img /\
  Forall (fun p => red p < 256 /\ green p < 256 /\ blue p < 256 /\ alpha p < 256)
         (data img).

(** [img.getpixel((x, y))] *)
Definition getpixel (img : image) (xy : nat * nat) : pixel :=
  let '(x, y) := xy in data img !!! (y * width img + x).

(** [out.putpixel((x, y), p)] on the pixel buffer of a [w]-wide image. *)
Definition putpixel (w : nat) (out : list pixel) (xy : nat * nat) (p : pixel)
  : list pixel :=
  let '(x, y) := xy in <[y * w + x := p]> out.

(** The visiting order of [for y in range(h): for x in range(w):]. *)
Definition coords (w h : nat) : list (nat * nat) :=
  flat_map (fun y => map (fun x => (x, y)) (seq 0 w)) (seq 0 h).

(** ** The detector [_detect_alpha_modes] *)

(** Loop body of the histogram pass: [if a > 0: hist[a] += 1]. *)
Definition hist_step (img : image) (hist : list nat) (xy : nat * nat) : list nat :=
  let a := alpha (getpixel img xy) in
  if 0 <? a then <[a := hist !!! a + 1]> hist else hist.

(** [hist = [0] * 256] followed by the double loop over the pixels. *)
Definition alpha_hist (img : image) : list nat :=
  fold_left (hist_step img) (coords (width img) (height img)) (repeat 0 256).

(** [enumerate(l)] started at index [i]. *)
Fixpoint enumerate_from (i : nat) (l : list nat) : list (nat * nat) :=
  match l with
  | [] => []
  | c :: l' => (i, c) :: enumerate_from (S i) l'
  end.

(** [[(a, c) for a, c in enumerate(hist) if a > 0 and c > 0]] *)
Definition non_zero (hist : list nat) : list (nat * nat) :=
  List.filter (fun '(a, c) => (0 <? a) && (0 <? c)) (enumerate_from 0 hist).

(** [key=lambda t: (t[1], t[0])] with [reverse=True]: [t] goes before [u]
    when its key [(count, alpha)] is lexicographically at least [u]'s. *)
Definition key_ge (t u : nat * nat) : bool :=
  let '(a1, c1) := t in
  let '(a2, c2) := u in
  (c2 <? c1) || ((c1 =? c2) && (a2 <=? a1)).

Fixpoint insert_desc (t : nat * nat) (l : list (nat * nat)) : list (nat * nat) :=
  match l with
  | [] => [t]
  | u :: l' => if key_ge t u then t :: u :: l' else u :: insert_desc t l'
  end.

(** [non_zero.sort(key=..., reverse=True)].  The entries of [non_zero] have
    pairwise distinct alphas, hence pairwise distinct keys, so every sorting
    algorithm (stable or not) produces this same list. *)
Definition sort_desc (l : list (nat * nat)) : list (nat * nat) :=
  fold_right insert_desc [] l.

Definition detect_alpha_modes (img : image) : option nat * option nat :=
  let nz := non_zero (alpha_hist img) in
  match nz with
  | [] => (None, None)
  | _ =>
      let top := map fst (firstn 2 (sort_desc nz)) in
      match top with
      | [t] => (Some t, None)
      | t0 :: t1 :: _ =>
          if t1 <=? t0 then (Some t0, Some t1) else (Some t1, Some t0)
      | [] => (None, None)
      end
  end.

(** ** The remapper [transform_image] (pixel part) *)

Definition opt_eqb (o : option nat) (a : nat) : bool :=
  match o with Some m => a =? m | None => false end.

(** The loop body of [transform_image] on one source pixel: the pixel put
    into [out], and whether [changed += 1] runs. *)
Definition remap_pixel (high_mode low_mode : option nat) (lower_target_alpha
    opaque_alpha transparent_alpha : nat) (p : pixel) : pixel * bool :=
  let '(mkPixel r g b a) := p in
  if (match low_mode with None => true | Some 0 => true | Some _ => false end)
     && (0 <? a) then (mkPixel r g b lower_target_alpha, true)
  else if opt_eqb high_mode a then (mkPixel r g b opaque_alpha, true)
  else if opt_eqb low_mode a then (mkPixel r g b transparent_alpha, true)
  else (mkPixel r g b a, false).

Definition transform_step (img : image) (high_mode low_mode : option nat)
    (lower_target_alpha opaque_alpha transparent_alpha : nat)
    (st : list pixel * nat) (xy : nat * nat) : list pixel * nat :=
  let '(out, changed) := st in
  let '(q, hit) := remap_pixel high_mode low_mode lower_target_alpha
                     opaque_alpha transparent_alpha (getpixel img xy) in
  (putpixel (width img) out xy q, if hit then S changed else changed).

(** [Image.new("RGBA", (w, h))]: all pixels (0, 0, 0, 0). *)
Definition new_image_data (w h : nat) : list pixel := repeat (mkPixel 0 0 0 0) (w * h).

(** The image [out] saved by [transform_image] and its [changed] count. *)
Definition transform_pixels (img : image) (opaque_alpha transparent_alpha : nat)
  : image * nat :=
  let '(high_mode, low_mode) := detect_alpha_modes img in
  let w := width img in
  let h := height img in
  let lower_target_alpha := Nat.min opaque_alpha transparent_alpha in
  let '(out, changed) :=
    fold_left (transform_step img high_mode low_mode lower_target_alpha
                 opaque_alpha transparent_alpha)
              (coords w h) (new_image_data w h, 0) in
  (mkImage w h out, changed).

(** Number of pixels of [l] with alpha [a] (a histogram bucket). *)
Definition count_alpha (l : list pixel) (a : nat) : nat :=
  length (List.filter (fun p => alpha p =? a) l).

Definition ex2 : image :=
  mkImage 2 1 [mkPixel 255 0 0 102; mkPixel 0 255 0 38].

(** ** The batch driver: [transform_image], [process_folder], [main] *)

(** Observable effects, in the order they happen. *)
Inductive event :=
  | MakeDirs (path : string)            (* ensure_dir(path) *)
  | MakeParentDirs (path : string)      (* ensure_dir(os.path.dirname(path)) *)
  | Saved (path : string) (img : image) (* out.save(path) *)
  | Processed (in_path out_path : string) (changed : nat) (* print("Processed ...") *)
  | Skipped (dir : string)              (* print("Skip: missing ...") *)
  | Done (total nvariants : nat).       (* print("Done. ...") *)

(** A Python computation: it runs on the trace of effects so far and either
    returns or raises an exception; effects before the exception remain. *)
Inductive result (A : Type) := Ok (a : A) | Exc (msg : string).
Arguments Ok {A} a.
Arguments Exc {A} msg.

Definition M (A : Type) := list event -> result A * list event.

Definition ret {A} (a : A) : M A := fun s => (Ok a, s).
Definition bind {A B} (m : M A) (k : A -> M B) : M B :=
  fun s => match m s with
           | (Ok a, s') => k a s'
           | (Exc e, s') => (Exc e, s')
           end.
Definition raise {A} (msg : string) : M A := fun s => (Exc msg, s).
Definition emit (e : event) : M unit := fun s => (Ok tt, s ++ [e]).

Notation "x <- m ;; k" := (bind m (fun x => k))
  (at level 100, m at next level, right associativity).
Notation "m ;;; k" := (bind m (fun _ => k)) (at level 100, right associativity).

(** The file system the script reads: directory listings ([os.listdir]) and
    regular files, each either a decodable image or unreadable/corrupt. *)
Record filesystem := mkFs {
  fs_dirs : list (string * list string);
  fs_files : list (string * option image)
}.

Fixpoint assoc {A} (k : string) (l : list (string * A)) : option A :=
  match l with
  | [] => None
  | (k', v) :: l' => if String.eqb k k' then Some v else assoc k l'
  end.

(** [os.path.join(a, b)] for a relative [b]. *)
Definition join (a b : string) : string := String.append a (String.append "/" b).

(** [str.lower()] on ASCII. *)
Definition lower_ascii (c : ascii) : ascii :=
  let n := nat_of_ascii c in
  if (65 <=? n) && (n <=? 90) then ascii_of_nat (n + 32) else c.

Fixpoint lower (s : string) : string :=
  match s with
  | EmptyString => EmptyString
  | String c s' => String (lower_ascii c) (lower s')
  end.

(** [s.endswith(suf)] *)
Definition endswith (suf s : string) : bool :=
  let n := String.length s in
  let k := String.length suf in
  (k <=? n) && String.eqb (substring (n - k) k s) suf.

Definition is_png (name : string) : bool := endswith ".png" (lower name).

(** [int(round(255 * (num / den)))], Python's [round] rounding half to even. *)
Definition to_8bit (num den : nat) : nat :=
  let q := (255 * num) / den in
  let r := (255 * num) mod den in
  if 2 * r <? den then q
  else if den <? 2 * r then S q
  else if Nat.even q then q else S q.

(** [Variant(tag, opaque_alpha, transparent_alpha)], fractions as [num/den]. *)
Record variant := mkVariant {
  tag : string;
  opaque_frac : nat * nat;
  transparent_frac : nat * nat
}.

Definition VARIANTS : list variant :=
  [ mkVariant "a40_15" (40, 100) (15, 100);
    mkVariant "a20_075" (20, 100) (75, 1000);
    mkVariant "a10_25" (10, 100) (25, 100) ].

Section Driver.

Variable fs : filesystem.
(** [ROOT = os.path.dirname(os.path.dirname(os.path.abspath(__file__)))] *)
Variable ROOT : string.

Definition isdir (d : string) : bool :=
  match assoc d (fs_dirs fs) with Some _ => true | None => false end.
Definition listdir (d : string) : list string :=
  match assoc d (fs_dirs fs) with Some names => names | None => [] end.
Definition isfile (p : string) : bool :=
  match assoc p (fs_files fs) with Some _ => true | None => false end.
(** [Image.open(p).convert("RGBA")]; [None]: it raises. *)
Definition open_convert (p : string) : option image :=
  match assoc p (fs_files fs) with Some (Some img) => Some img | _ => None end.

Definition GFX := join ROOT "graphics".
Definition EDGES_IN := join (join GFX "base") "edge".
Definition CORNERS_IN := join (join GFX "base") "corner".
Definition CENTERS_IN := join (join GFX "base") "center".
Definition BORDER_IN := join (join GFX "base") "chart-border.png".

Definition variant_root (t : string) := join GFX t.
Definition edges_out_dir (t : string) := join (variant_root t) "edge".
Definition corners_out_dir (t : string) := join (variant_root t) "corner".
Definition centers_out_dir (t : string) := join (variant_root t) "center".
Definition border_out_path (t : string) := join (variant_root t) "chart-border.png".

Definition transform_image (in_path out_path : string)
    (opaque_alpha transparent_alpha : nat) : M unit :=
  match open_convert in_path with
  | None => raise (String.append "cannot identify image file " in_path)
  | Some img =>
      let '(out, changed) := transform_pixels img opaque_alpha transparent_alpha in
      emit (MakeParentDirs out_path) ;;;
      emit (Saved out_path out) ;;;
      emit (Processed in_path out_path changed)
  end.

(** [for name in os.listdir(in_dir): ...] with the running [count]. *)
Fixpoint folder_loop (in_dir out_dir : string) (opaque_alpha transparent_alpha : nat)
    (names : list string) (count : nat) : M nat :=
  match names with
  | [] => ret count
  | name :: names' =>
      if negb (is_png name) then
        folder_loop in_dir out_dir opaque_alpha transparent_alpha names' count
      else
        transform_image (join in_dir name) (join out_dir name)
          opaque_alpha transparent_alpha ;;;
        folder_loop in_dir out_dir opaque_alpha transparent_alpha names' (count + 1)
  end.

Definition process_folder (in_dir out_dir : string)
    (opaque_alpha transparent_alpha : nat) : M nat :=
  if negb (isdir in_dir) then emit (Skipped in_dir) ;;; ret 0
  else
    emit (MakeDirs out_dir) ;;;
    folder_loop in_dir out_dir opaque_alpha transparent_alpha (listdir in_dir) 0.

(** [for v in VARIANTS: ...] with the running [total]. *)
Fixpoint variants_loop (vs : list variant) (total : nat) : M nat :=
  match vs with
  | [] => ret total
  | v :: vs' =>
      let oa := to_8bit (fst (opaque_frac v)) (snd (opaque_frac v)) in
      let ta := to_8bit (fst (transparent_frac v)) (snd (transparent_frac v)) in
      n1 <- process_folder EDGES_IN (edges_out_dir (tag v)) oa ta ;;
      n2 <- process_folder CORNERS_IN (corners_out_dir (tag v)) oa ta ;;
      n3 <- process_folder CENTERS_IN (centers_out_dir (tag v)) oa ta ;;
      n4 <- (if isfile BORDER_IN then
               transform_image BORDER_IN (border_out_path (tag v)) oa ta ;;; ret 1
             else ret 0) ;;
      variants_loop vs' (total + n1 + n2 + n3 + n4)
  end.

Definition main : M nat :=
  total <- variants_loop VARIANTS 0 ;;
  emit (Done total (length VARIANTS)) ;;;
  ret 0.

End Driver.

(** [sys.exit(main())]: the returned code, or 1 for an uncaught exception. *)
Definition exit_status (r : result nat) : nat :=
  match r with Ok n => n | Exc _ => 1 end.

(** ** Auxiliary definitions of the proofs *)

(** A fold over [0 .. k-1] writing [fst (g l[i])] at index [i] of a buffer
    and counting the indices where [snd (g l[i])] holds. *)
Definition idx_step (g : pixel -> pixel * bool) (l : list pixel)
    (st : list pixel * nat) (i : nat) : list pixel * nat :=
  let '(out, c) := st in
  let '(q, hit) := g (l !!! i) in (<[i := q]> out, if hit then S c else c).

(** [if a > 0: hist[a] += 1] on one pixel. *)
Definition hist_upd (hist : list nat) (p : pixel) : list nat :=
  if 0 <? alpha p then <[alpha p := hist !!! alpha p + 1]> hist else hist.

Definition key_geP (t u : nat * nat) : Prop := key_ge t u = true.

(** [detect_alpha_modes] reads its result off the sorted entries. *)
Definition modes_of_sorted (s : list (nat * nat)) : option nat * option nat :=
  match s with
  | [] => (None, None)
  | [(a, _)] => (Some a, None)
  | (a0, _) :: (a1, _) :: _ => if a1 <=? a0 then (Some a0, Some a1) else (Some a1, Some a0)
  end.

(** Alpha [a] ranks below alpha [b]: fewer pixels, or as many and smaller. *)
Definition key_lt (l : list pixel) (a b : nat) : Prop :=
  count_alpha l a < count_alpha l b \/
  (count_alpha l a = count_alpha l b /\ a < b).

(** Number of pixels whose alpha differs between [img] and [out]. *)
Definition count_changed (img out : image) : nat :=
  length (List.filter (fun pq => negb (alpha (fst pq) =? alpha (snd pq)))
                      (combine (data img) (data out))).

Definition is_saved (e : event) : bool :=
  match e with Saved _ _ => true | _ => false end.

(** Number of images saved in a trace. *)
Definition count_saved (es : list event) : nat := length (List.filter is_saved es).

(** A successful computation appends to the trace, and returns [base] plus
    the number of images it saved. *)
Definition counts_saves (m : M nat) (base : nat) : Prop :=
  forall s n s', m s = (Ok n, s') ->
  exists added, s' = s ++ added /\ n = base + count_saved added.

(** Paths of the images saved in a trace, in order. *)
Definition saved_paths (es : list event) : list string :=
  flat_map (fun e => match e with Saved p _ => [p] | _ => [] end) es.

(** A tag is a plain folder name: non-empty and without ['/'].  For such a
    tag, [os.path.join(GFX, tag, x)] is [GFX + "/" + tag + "/" + x], as [join]
    computes it ([GFX] never ends in ['/']). *)
Fixpoint no_slash (t : string) : bool :=
  match t with
  | EmptyString => true
  | String c t' => negb (Ascii.eqb c "/"%char) && no_slash t'
  end.
Definition plain_name (t : string) : bool :=
  negb (String.eqb t EmptyString) && no_slash t.

(** The units of work of [process_folder]: (input, output) path of each
    listed PNG file, in listing order. *)
Definition folder_units (fs : filesystem) (in_dir out_dir : string) : list (string * string) :=
  if isdir fs in_dir
  then map (fun n => (join in_dir n, join out_dir n)) (List.filter is_png (listdir fs in_dir))
  else [].

(** The units of one pass of the loop of [main] over a variant. *)
Definition variant_units (fs : filesystem) (ROOT : string) (v : variant)
  : list (string * string) :=
  folder_units fs (EDGES_IN ROOT) (edges_out_dir ROOT (tag v)) ++
  folder_units fs (CORNERS_IN ROOT) (corners_out_dir ROOT (tag v)) ++
  folder_units fs (CENTERS_IN ROOT) (centers_out_dir ROOT (tag v)) ++
  (if isfile fs (BORDER_IN ROOT) then [(BORDER_IN ROOT, border_out_path ROOT (tag v))] else []).

(** All units of [main], in the order it reaches them. *)
Definition main_units (fs : filesystem) (ROOT : string) : list (string * string) :=
  flat_map (variant_units fs ROOT) VARIANTS.

(** The (input, output) pairs of the [Processed] lines of a trace. *)
Definition processed_of (es : list event) : list (string * string) :=
  flat_map (fun e => match e with Processed i o _ => [(i, o)] | _ => [] end) es.

Definition decodes (fs : filesystem) (u : string * string) : bool :=
  match open_convert fs (fst u) with Some _ => true | None => false end.

(** The units before the first one whose input does not decode. *)
Fixpoint take_ok (fs : filesystem) (L : list (string * string)) : list (string * string) :=
  match L with
  | [] => []
  | u :: L' => if decodes fs u then u :: take_ok fs L' else []
  end.

Definition all_ok (fs : filesystem) (L : list (string * string)) : bool :=
  forallb (decodes fs) L.

(** [m] works through the units [L] in order: it processes and saves the
    units up to the first undecodable one, and raises exactly when there is
    one. *)
Definition runs {A} (fs : filesystem) (m : M A) (L : list (string * string)) : Prop :=
  forall s, exists r added,
    m s = (r, s ++ added) /\
    processed_of added = take_ok fs L /\
    saved_paths added = map snd (take_ok fs L) /\
    match r with Ok _ => all_ok fs L = true | Exc _ => all_ok fs L = false end.

(** Whatever its outcome, a computation only appends to the trace, and every
    image it saves goes to a path satisfying [P]. *)
Definition saves_within {A} (m : M A) (P : string -> Prop) : Prop :=
  forall s r s', m s = (r, s') ->
  exists added, s' = s ++ added /\ forall p img, In (Saved p img) added -> P p.

(** The paths [main] may write for variant [v]: a PNG file of an existing
    input folder, under the same name in the variant's folder, or the
    variant's border file when the base border exists. *)
Definition variant_output (fs : filesystem) (ROOT : string) (v : variant) (p : string) : Prop :=
  (exists d od n,
     In (d, od) [(EDGES_IN ROOT, edges_out_dir ROOT (tag v));
                 (CORNERS_IN ROOT, corners_out_dir ROOT (tag v));
                 (CENTERS_IN ROOT, centers_out_dir ROOT (tag v))] /\
     isdir fs d = true /\ In n (listdir fs d) /\ is_png n = true /\ p = join od n) \/
  (isfile fs (BORDER_IN ROOT) = true /\ p = border_out_path ROOT (tag v)).

(** Number of files [process_folder] picks up in [d]. *)
Definition npng (fs : filesystem) (d : string) : nat :=
  if isdir fs d then length (List.filter is_png (listdir fs d)) else 0.

(** Number of files one variant of [main] processes. *)
Definition files_per_variant (fs : filesystem) (ROOT : string) : nat :=
  npng fs (EDGES_IN ROOT) + npng fs (CORNERS_IN ROOT) + npng fs (CENTERS_IN ROOT) +
  (if isfile fs (BORDER_IN ROOT) then 1 else 0).

(** The events [folder_loop] appends for the PNG files of [names]. *)
Definition folder_events (fs : filesystem) (in_dir out_dir : string) (oa ta : nat)
    (names : list string) : list event :=
  flat_map (fun n =>
      match open_convert fs (join in_dir n) with
      | Some img =>
          [MakeParentDirs (join out_dir n);
           Saved (join out_dir n) (fst (transform_pixels img oa ta));
           Processed (join in_dir n) (join out_dir n) (snd (transform_pixels img oa ta))]
      | None => []
      end)
    (List.filter is_png names).

(** Every PNG file [main] reads can be decoded. *)
Definition inputs_decode (fs : filesystem) (ROOT : string) : Prop :=
  (forall d, In d [EDGES_IN ROOT; CORNERS_IN ROOT; CENTERS_IN ROOT] ->
     isdir fs d = true ->
     forall n, In n (listdir fs d) -> is_png n = true -> open_convert fs (join d n) <> None) /\
  (isfile fs (BORDER_IN ROOT) = true -> open_convert fs (BORDER_IN ROOT) <> None).

(** Some PNG file [main] reads cannot be decoded. *)
Definition bad_input (fs : filesystem) (ROOT : string) : Prop :=
  (exists d, In d [EDGES_IN ROOT; CORNERS_IN ROOT; CENTERS_IN ROOT] /\
     isdir fs d = true /\
     exists n, In n (listdir fs d) /\ is_png n = true /\ open_convert fs (join d n) = None) \/
  (isfile fs (BORDER_IN ROOT) = true /\ open_convert fs (BORDER_IN ROOT) = None).

(** Sample inputs: a corrupt edge image listed before a readable one, ... *)
Definition fs_cex : filesystem :=
  mkFs [("r/graphics/base/edge"%string, ["a.png"%string; "b.png"%string])]
       [("r/graphics/base/edge/a.png"%string, None);
        ("r/graphics/base/edge/b.png"%string, Some ex2)].

(** ... an image with three non-zero alphas (10 twice, 20 and 30 once), one
    with a single non-zero alpha, a fully transparent one, and [ex2] with
    its pixels in a column in the other order. *)
Definition img_three : image :=
  mkImage 2 2 [mkPixel 1 1 1 10; mkPixel 2 2 2 10; mkPixel 3 3 3 20; mkPixel 4 4 4 30].
(** A readable edge folder with a non-PNG file and an upper-case suffix. *)
Definition fs_ok : filesystem :=
  mkFs [("r/graphics/base/edge"%string, ["a.png"%string; "notes.txt"%string; "B.PNG"%string])]
       [("r/graphics/base/edge/a.png"%string, Some ex2);
        ("r/graphics/base/edge/notes.txt"%string, None);
        ("r/graphics/base/edge/B.PNG"%string, Some ex2);
        ("r/graphics/base/chart-border.png"%string, Some ex2)].
Definition img_single : image :=
  mkImage 2 1 [mkPixel 1 2 3 0; mkPixel 0 255 0 200].
Definition img_clear : image :=
  mkImage 2 1 [mkPixel 9 8 7 0; mkPixel 0 0 0 0].
Definition ex2_flipped : image :=
  mkImage 1 2 [mkPixel 0 255 0 38; mkPixel 255 0 0 102].

(** ** The icon exporter: graphics/export_icons.py

    The environment the script observes: the home folder, the folder of the
    script, [Path(p).exists()], and [subprocess.run(cmd, ...)], which either
    returns a completed process with its return code or raises.  A run
    records its commands in order. *)

Module ExportIcons.

Inductive run_result :=
  | Returned (returncode : Z)
  | TimeoutExpired
  | FileNotFound
  | OtherError.

Record env := mkEnv {
  home : string;
  script_dir : string;
  path_exists : string -> bool;
  run : list string -> run_result
}.

(** A Python value or an exception propagating out of the call. *)
Inductive outcome (A : Type) := POk (a : A) | PRaise.
Arguments POk {A} a.
Arguments PRaise {A}.

(** How [main] ends: by returning, by [sys.exit(code)] or by an uncaught
    exception. *)
Inductive termination := Normal | SysExit (code : nat) | Uncaught.

(** The exit status of the Python process. *)
Definition status (t : termination) : nat :=
  match t with Normal => 0 | SysExit c => c | Uncaught => 1 end.

(** [f"{n}"] for a non-negative integer. *)
Fixpoint digits_aux (fuel n : nat) (acc : string) : string :=
  match fuel with
  | 0 => acc
  | S fuel' =>
      let acc' := String (ascii_of_nat (48 + n mod 10)) acc in
      if n <? 10 then acc' else digits_aux fuel' (n / 10) acc'
  end.
Definition dec (n : nat) : string := digits_aux (S n) n EmptyString.

Definition possible_paths (e : env) : list string :=
  [ "C:\Program Files\Inkscape\bin\inkscape.exe"%string;
    "C:\Program Files (x86)\Inkscape\bin\inkscape.exe"%string;
    join (join (join (join (join (join (home e) "AppData") "Local") "Programs")
      "Inkscape") "bin") "inkscape.exe" ].

Fixpoint first_existing (e : env) (ps : list string) : option string :=
  match ps with
  | [] => None
  | p :: ps' => if path_exists e p then Some p else first_existing e ps'
  end.

Definition version_cmd : list string := ["inkscape"; "--version"]%string.

Definition find_inkscape (e : env) : outcome (option string) * list (list string) :=
  match first_existing e (possible_paths e) with
  | Some p => (POk (Some p), [])
  | None =>
      match run e version_cmd with
      | Returned rc => (POk (if Z.eqb rc 0 then Some "inkscape"%string else None), [version_cmd])
      | TimeoutExpired | FileNotFound => (POk None, [version_cmd])
      | OtherError => (PRaise, [version_cmd])
      end
  end.

Definition export_cmd (inkscape_path svg_file output_file : string) (dpi : nat)
  : list string :=
  [ inkscape_path; "--export-type=png"%string; "--export-area-page"%string;
    String.append "--export-dpi=" (dec dpi);
    String.append "--export-filename=" output_file;
    svg_file ].

Definition export_svg_to_png (e : env) (inkscape_path svg_file output_file : string)
    (dpi : nat) : outcome bool * list (list string) :=
  let cmd := export_cmd inkscape_path svg_file output_file dpi in
  match run e cmd with
  | Returned rc => (POk (Z.eqb rc 0), [cmd])
  | _ => (PRaise, [cmd])
  end.

Definition icons_dir (e : env) : string := join (script_dir e) "icons".
Definition svg_file (e : env) : string := join (icons_dir e) "icons.svg".

Definition exports : list (nat * string) :=
  [(24, "icons-16.png"%string); (48, "icons-32.png"%string); (96, "icons-64.png"%string)].

(** The command [export_svg_to_png] runs for the entry [(dpi, filename)]. *)
Definition export_cmd_of (e : env) (inkscape_path : string) (x : nat * string)
  : list string :=
  export_cmd inkscape_path (svg_file e) (join (icons_dir e) (snd x)) (fst x).

(** Whether that command returns 0. *)
Definition export_succeeds (e : env) (inkscape_path : string) (x : nat * string) : bool :=
  match run e (export_cmd_of e inkscape_path x) with
  | Returned rc => Z.eqb rc 0
  | _ => false
  end.

(** [for dpi, filename in exports: ...] with [success_count]. *)
Fixpoint export_loop (e : env) (inkscape_path : string) (xs : list (nat * string))
    (success_count : nat) : outcome nat * list (list string) :=
  match xs with
  | [] => (POk success_count, [])
  | (dpi, filename) :: xs' =>
      let '(r, c1) := export_svg_to_png e inkscape_path (svg_file e)
                        (join (icons_dir e) filename) dpi in
      match r with
      | PRaise => (PRaise, c1)
      | POk ok =>
          let '(r', c2) := export_loop e inkscape_path xs'
                             (if ok then success_count + 1 else success_count) in
          (r', c1 ++ c2)
      end
  end.

Definition main (e : env) : termination * list (list string) :=
  if negb (path_exists e (svg_file e)) then (SysExit 1, [])
  else
    let '(r, c1) := find_inkscape e in
    match r with
    | PRaise => (Uncaught, c1)
    | POk None => (SysExit 1, c1)
    | POk (Some p) =>
        if String.eqb p EmptyString then (SysExit 1, c1)
        else
          let '(r', c2) := export_loop e p exports 0 in
          match r' with
          | PRaise => (Uncaught, c1 ++ c2)
          | POk success_count =>
              (if success_count <? length exports then SysExit 1 else Normal, c1 ++ c2)
          end
  end.

(** Sample environment: Inkscape on the PATH, the 32 px export returns
    [rc32], every other command 0. *)
Definition env_sample (rc32 : Z) : env :=
  mkEnv "/home/u" "/src/graphics"
    (fun p => String.eqb p "/src/graphics/icons/icons.svg")
    (fun cmd => if String.eqb (nth 4 cmd EmptyString)
                     "--export-filename=/src/graphics/icons/icons-32.png"
                then Returned rc32 else Returned 0%Z).

End ExportIcons.

(** * Proofs *)

(** ** The concrete scenarios of the spec *)

Example ex2_modes : detect_alpha_modes ex2 = (Some 102, Some 38).
Proof. reflexivity. Qed.

Example ex2_swap :
  transform_pixels ex2 26 64 = (mkImage 2 1 [mkPixel 255 0 0 26; mkPixel 0 255 0 64], 2).
Proof. reflexivity. Qed.

Example ex_single :
  transform_pixels (mkImage 2 1 [mkPixel 1 2 3 0; mkPixel 0 255 0 200]) 102 38
  = (mkImage 2 1 [mkPixel 1 2 3 0; mkPixel 0 255 0 38], 1).
Proof. reflexivity. Qed.

Example variant_targets :
  map (fun v => (to_8bit (fst (opaque_frac v)) (snd (opaque_frac v)),
                 to_8bit (fst (transparent_frac v)) (snd (transparent_frac v)))) VARIANTS
  = [(102, 38); (51, 19); (26, 64)].
Proof. reflexivity. Qed.


(** ** The pixel loops visit the buffer in index order *)

Section Loops.

Lemma seq_shift_add (a n : nat) : seq a n = map (Nat.add a) (seq 0 n).
Proof.
  induction n as [|n IH]; [done|].
  rewrite !seq_S, map_app, IH. simpl. done.
Qed.

Lemma coords_seq (w h : nat) :
  coords w h = map (fun i => (i mod w, i / w)) (seq 0 (w * h)).
Proof.
  induction h as [|h IH].
  - rewrite Nat.mul_0_r. done.
  - unfold coords in *. rewrite seq_S, flat_map_app, IH. simpl.
    rewrite app_nil_r, Nat.mul_succ_r, seq_app, map_app. f_equal.
    simpl. rewrite (seq_shift_add (w * h) w), map_map.
    apply map_ext_in. intros x Hx. apply in_seq in Hx.
    assert (Hw : w <> 0) by lia.
    f_equal.
    + apply (Nat.mod_unique _ _ h); lia.
    + apply (Nat.div_unique _ _ h x); lia.
Qed.

Lemma fold_left_map_fn {A B C} (f : A -> B -> A) (g : C -> B) (l : list C) (a : A) :
  fold_left f (map g l) a = fold_left (fun acc x => f acc (g x)) l a.
Proof. revert a. induction l; simpl; auto. Qed.

Lemma fold_left_ext_in {A B} (f g : A -> B -> A) (l : list B) (a : A) :
  (forall acc x, In x l -> f acc x = g acc x) -> fold_left f l a = fold_left g l a.
Proof.
  revert a. induction l as [|x l IH]; intros a H; simpl; [done|].
  rewrite H by (left; done). apply IH. intros. apply H. right. done.
Qed.

Lemma index_of_coords (w i : nat) : w <> 0 -> i / w * w + i mod w = i.
Proof. intros Hw. rewrite (Nat.div_mod_eq i w) at 3. lia. Qed.

Lemma fold_idx_step (g : pixel -> pixel * bool) (l out0 : list pixel) (k : nat) :
  k <= length l -> length out0 = length l ->
  fold_left (idx_step g l) (seq 0 k) (out0, 0)
  = (map (fun p => fst (g p)) (take k l) ++ drop k out0,
     length (List.filter (fun p => snd (g p)) (take k l))).
Proof.
  intros Hk Hlen. induction k as [|k IH].
  - simpl. done.
  - rewrite seq_S, fold_left_app, IH by lia. simpl.
    rewrite (take_S_r l k (l !!! k)) by (apply list_lookup_lookup_total_lt; lia).
    rewrite (drop_S out0 (out0 !!! k) k) by (apply list_lookup_lookup_total_lt; lia).
    destruct (g (l !!! k)) as [q hit] eqn:Hg.
    rewrite insert_app_r_alt by (rewrite length_map, length_take; lia).
    rewrite length_map, length_take, Nat.min_l, Nat.sub_diag by lia. simpl.
    rewrite map_app, List.filter_app, length_app, <- app_assoc. simpl. rewrite Hg. simpl.
    destruct hit; simpl; f_equal; lia.
Qed.

Lemma transform_pixels_spec (img : image) (oa ta : nat) :
  length (data img) = width img * height img ->
  transform_pixels img oa ta =
  (mkImage (width img) (height img)
     (map (fun p => fst (remap_pixel (fst (detect_alpha_modes img))
                          (snd (detect_alpha_modes img)) (Nat.min oa ta) oa ta p))
          (data img)),
   length (List.filter (fun p => snd (remap_pixel (fst (detect_alpha_modes img))
                          (snd (detect_alpha_modes img)) (Nat.min oa ta) oa ta p))
          (data img))).
Proof.
  intros Hlen. unfold transform_pixels.
  destruct (detect_alpha_modes img) as [hm lm]. simpl.
  rewrite coords_seq, fold_left_map_fn.
  rewrite (fold_left_ext_in _ (idx_step (remap_pixel hm lm (Nat.min oa ta) oa ta)
                                 (data img))).
  2:{ intros [out c] i Hi. apply in_seq in Hi.
      assert (width img <> 0) by (intro E; rewrite E in Hi; simpl in Hi; lia).
      unfold transform_step, idx_step, getpixel, putpixel.
      rewrite index_of_coords by done. done. }
  rewrite fold_idx_step by (unfold new_image_data; rewrite ?repeat_length; lia).
  rewrite take_ge by lia.
  rewrite drop_ge by (unfold new_image_data; rewrite repeat_length; lia).
  rewrite app_nil_r. done.
Qed.

End Loops.

(** ** The histogram counts the pixels of each non-zero alpha *)

Section Histogram.

Lemma fold_seq_take {A} (f : A -> pixel -> A) (l : list pixel) (k : nat) (a : A) :
  k <= length l ->
  fold_left (fun acc i => f acc (l !!! i)) (seq 0 k) a = fold_left f (take k l) a.
Proof.
  intros Hk. induction k as [|k IH]; [done|].
  rewrite seq_S, fold_left_app, IH by lia.
  rewrite (take_S_r l k (l !!! k)) by (apply list_lookup_lookup_total_lt; lia).
  rewrite fold_left_app. done.
Qed.

Lemma alpha_hist_data (img : image) :
  length (data img) = width img * height img ->
  alpha_hist img = fold_left hist_upd (data img) (repeat 0 256).
Proof.
  intros Hlen. unfold alpha_hist. rewrite coords_seq, fold_left_map_fn.
  rewrite (fold_left_ext_in _ (fun acc i => hist_upd acc (data img !!! i))).
  - rewrite fold_seq_take by lia. rewrite take_ge by lia. done.
  - intros acc i Hi. apply in_seq in Hi.
    assert (width img <> 0) by (intro E; rewrite E in Hi; simpl in Hi; lia).
    unfold hist_step, hist_upd, getpixel. rewrite index_of_coords by done. done.
Qed.

Lemma length_hist_fold (l : list pixel) (h0 : list nat) :
  length (fold_left hist_upd l h0) = length h0.
Proof.
  revert h0. induction l as [|p l IH]; intros h0; simpl; [done|].
  rewrite IH. unfold hist_upd. destruct (0 <? alpha p); [apply length_insert|done].
Qed.

Lemma lookup_hist_fold (l : list pixel) (h0 : list nat) (a : nat) :
  Forall (fun p => alpha p < length h0) l -> a < length h0 ->
  fold_left hist_upd l h0 !!! a = h0 !!! a + (if 0 <? a then count_alpha l a else 0).
Proof.
  revert h0. induction l as [|p l IH]; intros h0 Hl Ha.
  - simpl. unfold count_alpha. simpl. destruct (0 <? a); lia.
  - inversion Hl as [|? ? Hp Hl']; subst. simpl.
    assert (Hlen : length (hist_upd h0 p) = length h0)
      by (unfold hist_upd; destruct (0 <? alpha p); [apply length_insert|done]).
    rewrite IH by (rewrite ?Hlen; done).
    unfold count_alpha. simpl.
    unfold hist_upd.
    destruct (Nat.ltb_spec 0 (alpha p)); destruct (Nat.eqb_spec (alpha p) a); subst.
    + rewrite list_lookup_total_insert_eq by done.
      destruct (Nat.ltb_spec 0 (alpha p)); simpl; lia.
    + rewrite list_lookup_total_insert_ne by done. done.
    + destruct (Nat.ltb_spec 0 (alpha p)); simpl; lia.
    + done.
Qed.

Lemma lookup_total_repeat0 (n a : nat) : repeat 0 n !!! a = 0.
Proof.
  revert a. induction n as [|n IH]; intros [|a]; simpl; try done.
Qed.

(** The bucket of alpha [a] holds the number of pixels with that alpha. *)
Lemma alpha_hist_count (img : image) (a : nat) :
  wf_image img -> a < 256 ->
  alpha_hist img !! a = Some (if 0 <? a then count_alpha (data img) a else 0).
Proof.
  intros [Hlen Hwf] Ha. rewrite alpha_hist_data by done.
  assert (Hl : length (fold_left hist_upd (data img) (repeat 0 256)) = 256)
    by (rewrite length_hist_fold, repeat_length; done).
  rewrite list_lookup_lookup_total_lt by lia. f_equal.
  rewrite lookup_hist_fold, lookup_total_repeat0; [done| |rewrite repeat_length; done].
  eapply Forall_impl; [exact Hwf|]. intros p Hp. rewrite repeat_length. simpl in Hp. lia.
Qed.

Lemma length_alpha_hist (img : image) : wf_image img -> length (alpha_hist img) = 256.
Proof.
  intros [Hlen Hwf]. rewrite alpha_hist_data by done.
  rewrite length_hist_fold, repeat_length. done.
Qed.

Lemma count_alpha_bound (img : image) (a : nat) :
  wf_image img -> 0 < count_alpha (data img) a -> a < 256.
Proof.
  intros [_ Hwf] Hc. unfold count_alpha in Hc.
  destruct (List.filter (fun p => alpha p =? a) (data img)) as [|p ps] eqn:E;
    simpl in Hc; [lia|].
  assert (Hin : In p (List.filter (fun p => alpha p =? a) (data img))) by (rewrite E; left; done).
  apply filter_In in Hin as [Hin Heq]. apply Nat.eqb_eq in Heq.
  rewrite List.Forall_forall in Hwf. apply Hwf in Hin. lia.
Qed.

Lemma In_enumerate_from (i : nat) (l : list nat) (a c : nat) :
  In (a, c) (enumerate_from i l) <-> i <= a /\ l !! (a - i) = Some c.
Proof.
  revert i. induction l as [|c' l IH]; intros i; simpl.
  - split; [done|]. intros [_ H]. done.
  - rewrite IH. split.
    + intros [E|[Hle Hl]].
      * inversion E; subst. rewrite Nat.sub_diag. done.
      * split; [lia|]. replace (a - i) with (S (a - S i)) by lia. done.
    + intros [Hle Hl]. destruct (decide (a = i)) as [->|Hne].
      * left. rewrite Nat.sub_diag in Hl. simpl in Hl. inversion Hl. done.
      * right. split; [lia|]. replace (a - i) with (S (a - S i)) in Hl by lia. done.
Qed.

Lemma map_fst_enumerate_from (i : nat) (l : list nat) :
  map fst (enumerate_from i l) = seq i (length l).
Proof. revert i. induction l as [|c l IH]; intros i; simpl; [done|]. rewrite IH. done. Qed.

Lemma NoDup_map_fst_filter {A B} (f : A * B -> bool) (l : list (A * B)) :
  NoDup (map fst l) -> NoDup (map fst (List.filter f l)).
Proof.
  induction l as [|x l IH]; intros Hnd; simpl; [constructor|].
  inversion Hnd as [|? ? Hx Hnd']; subst.
  destruct (f x); simpl; [|auto].
  constructor; [|auto].
  intros Hin. apply list_elem_of_In in Hin. apply Hx. apply list_elem_of_In.
  apply in_map_iff in Hin as [y [Hy Hin]].
  apply filter_In in Hin as [Hin _]. rewrite <- Hy. apply in_map. done.
Qed.

Lemma NoDup_non_zero (hist : list nat) : NoDup (map fst (non_zero hist)).
Proof.
  unfold non_zero. apply NoDup_map_fst_filter.
  rewrite map_fst_enumerate_from. apply NoDup_seq.
Qed.

(** The entries of [non_zero] are the non-zero alphas that occur, with their
    pixel counts. *)
Lemma In_non_zero (img : image) (a c : nat) :
  wf_image img ->
  In (a, c) (non_zero (alpha_hist img)) <->
  0 < a /\ 0 < c /\ c = count_alpha (data img) a.
Proof.
  intros Hwf. unfold non_zero. rewrite filter_In, In_enumerate_from, Nat.sub_0_r.
  split.
  - intros [[_ Hl] Hb]. apply andb_prop in Hb as [Ha Hc].
    apply Nat.ltb_lt in Ha, Hc.
    assert (a < 256) by (apply lookup_lt_Some in Hl; rewrite length_alpha_hist in Hl; done).
    rewrite alpha_hist_count in Hl by done.
    replace (0 <? a) with true in Hl by (symmetry; apply Nat.ltb_lt; done).
    inversion Hl. lia.
  - intros (Ha & Hc & ->).
    assert (a < 256) by (eapply count_alpha_bound; eauto).
    rewrite alpha_hist_count by done.
    replace (0 <? a) with true by (symmetry; apply Nat.ltb_lt; done).
    split; [split; [lia|done]|]. simpl. apply Nat.ltb_lt. done.
Qed.

End Histogram.

(** ** The sort and the top two entries *)

Section Sorting.

Lemma key_ge_iff (a1 c1 a2 c2 : nat) :
  key_ge (a1, c1) (a2, c2) = true <-> c2 < c1 \/ (c1 = c2 /\ a2 <= a1).
Proof.
  unfold key_ge. rewrite Bool.orb_true_iff, Bool.andb_true_iff, Nat.ltb_lt, Nat.eqb_eq,
    Nat.leb_le. done.
Qed.

Lemma key_ge_trans (t u v : nat * nat) : key_geP t u -> key_geP u v -> key_geP t v.
Proof.
  destruct t as [a1 c1], u as [a2 c2], v as [a3 c3]. unfold key_geP.
  rewrite !key_ge_iff. lia.
Qed.

Lemma key_ge_total (t u : nat * nat) : key_ge t u = false -> key_geP u t.
Proof.
  destruct t as [a1 c1], u as [a2 c2]. unfold key_geP. intros H.
  rewrite key_ge_iff. destruct (key_ge (a1, c1) (a2, c2)) eqn:E; [done|].
  assert (~ (c2 < c1 \/ (c1 = c2 /\ a2 <= a1))) by (rewrite <- key_ge_iff, E; done).
  lia.
Qed.

Lemma insert_desc_perm (t : nat * nat) (l : list (nat * nat)) :
  Permutation (insert_desc t l) (t :: l).
Proof.
  induction l as [|u l IH]; simpl; [done|].
  destruct (key_ge t u); [done|].
  etransitivity; [apply perm_skip, IH|]. apply perm_swap.
Qed.

Lemma sort_desc_perm (l : list (nat * nat)) : Permutation (sort_desc l) l.
Proof.
  induction l as [|t l IH]; simpl; [done|].
  etransitivity; [apply insert_desc_perm|]. apply perm_skip, IH.
Qed.

Lemma insert_desc_sorted (t : nat * nat) (l : list (nat * nat)) :
  StronglySorted key_geP l -> StronglySorted key_geP (insert_desc t l).
Proof.
  induction l as [|u l IH]; intros Hs; simpl.
  - repeat constructor.
  - inversion Hs as [|? ? Hs' Hfu]; subst.
    destruct (key_ge t u) eqn:E.
    + constructor; [done|]. constructor; [done|].
      eapply List.Forall_impl; [|exact Hfu]. intros v Hv. eapply key_ge_trans; eauto.
    + constructor; [auto|].
      apply List.Forall_forall. intros v Hv.
      apply (Permutation_in _ (insert_desc_perm t l)) in Hv as [<-|Hv].
      * apply key_ge_total. done.
      * rewrite List.Forall_forall in Hfu. auto.
Qed.

Lemma sort_desc_sorted (l : list (nat * nat)) : StronglySorted key_geP (sort_desc l).
Proof.
  induction l as [|t l IH]; simpl; [constructor|]. apply insert_desc_sorted, IH.
Qed.

Lemma detect_sorted (img : image) :
  detect_alpha_modes img = modes_of_sorted (sort_desc (non_zero (alpha_hist img))).
Proof.
  unfold detect_alpha_modes.
  destruct (non_zero (alpha_hist img)) as [|x xs]; [done|].
  generalize (sort_desc (x :: xs)). intros s.
  destruct s as [|[a0 c0] [|[a1 c1] r]]; done.
Qed.

End Sorting.

Section Detector.

Variable img : image.
Hypothesis Hwf : wf_image img.

Let sorted := sort_desc (non_zero (alpha_hist img)).

Lemma In_sorted (a c : nat) :
  In (a, c) sorted <-> 0 < a /\ 0 < c /\ c = count_alpha (data img) a.
Proof.
  rewrite <- In_non_zero by done. unfold sorted. split.
  - apply Permutation_in, sort_desc_perm.
  - apply Permutation_in. symmetry. apply sort_desc_perm.
Qed.

Lemma NoDup_sorted : NoDup (map fst sorted).
Proof.
  unfold sorted. rewrite (Permutation_map fst (sort_desc_perm _)). apply NoDup_non_zero.
Qed.

Lemma sorted_alpha_bound (a c : nat) : In (a, c) sorted -> 0 < a < 256 /\ 0 < count_alpha (data img) a.
Proof.
  intros Hin. apply In_sorted in Hin as (Ha & Hc & ->).
  split; [split; [done|eapply count_alpha_bound; eauto]|done].
Qed.

(** Every reported mode is an occurring non-zero alpha, and a reported pair
    is strictly ordered. *)
Lemma detect_modes_occur :
  (forall m, fst (detect_alpha_modes img) = Some m ->
     0 < m < 256 /\ 0 < count_alpha (data img) m) /\
  (forall m, snd (detect_alpha_modes img) = Some m ->
     0 < m < 256 /\ 0 < count_alpha (data img) m) /\
  (forall h l, detect_alpha_modes img = (Some h, Some l) -> l < h).
Proof.
  rewrite detect_sorted. fold sorted.
  pose proof NoDup_sorted as Hnd.
  assert (Hb : forall a c, In (a, c) sorted ->
             0 < a < 256 /\ 0 < count_alpha (data img) a) by apply sorted_alpha_bound.
  destruct sorted as [|[a0 c0] [|[a1 c1] r]]; simpl.
  - split; [|split]; intros; done.
  - split; [|split]; intros m Hm; try done.
    inversion Hm; subst. eapply Hb. left. done.
  - assert (a0 <> a1) by (intros ->; inversion Hnd as [|? ? Hn]; apply Hn; left).
    assert (H0 := Hb a0 c0 (or_introl eq_refl)).
    assert (H1 := Hb a1 c1 (or_intror (or_introl eq_refl))).
    destruct (Nat.leb_spec a1 a0); simpl.
    + split; [|split]; [intros ? Hm..|intros ? ? Hm]; inversion Hm; subst; try done; lia.
    + split; [|split]; [intros ? Hm..|intros ? ? Hm]; inversion Hm; subst; try done; lia.
Qed.

(** With no low mode, every occurring non-zero alpha is the high mode. *)
Lemma detect_single_mode (a : nat) :
  snd (detect_alpha_modes img) = None -> 0 < a -> 0 < count_alpha (data img) a ->
  fst (detect_alpha_modes img) = Some a.
Proof.
  intros Hlow Ha Hc.
  assert (Hin : In (a, count_alpha (data img) a) sorted) by (apply In_sorted; done).
  pose proof NoDup_sorted as Hnd.
  revert Hlow. rewrite detect_sorted. fold sorted.
  destruct sorted as [|[a0 c0] [|[a1 c1] r]]; simpl.
  - done.
  - intros _. destruct Hin as [E|[]]. inversion E. done.
  - destruct (a1 <=? a0); done.
Qed.

End Detector.

(** ** Per-pixel facts of the remapper *)

Section Remap.

Lemma Forall2_map_r {A B} (P : A -> B -> Prop) (f : A -> B) (l : list A) :
  (forall x, In x l -> P x (f x)) -> Forall2 P l (map f l).
Proof.
  induction l as [|x l IH]; intros H; simpl; constructor.
  - apply H. left. done.
  - apply IH. intros y Hy. apply H. right. done.
Qed.

Lemma remap_pixel_rgb (hm lm : option nat) (t oa ta : nat) (p : pixel) :
  red (fst (remap_pixel hm lm t oa ta p)) = red p /\
  green (fst (remap_pixel hm lm t oa ta p)) = green p /\
  blue (fst (remap_pixel hm lm t oa ta p)) = blue p.
Proof.
  destruct p as [r g b a]. unfold remap_pixel.
  destruct (_ && _); [done|]. destruct (opt_eqb hm a); [done|].
  destruct (opt_eqb lm a); done.
Qed.

Lemma remap_pixel_pass (hm lm : option nat) (t oa ta : nat) (p : pixel) :
  snd (remap_pixel hm lm t oa ta p) = false -> fst (remap_pixel hm lm t oa ta p) = p.
Proof.
  destruct p as [r g b a]. unfold remap_pixel.
  destruct (_ && _); [done|]. destruct (opt_eqb hm a); [done|].
  destruct (opt_eqb lm a); done.
Qed.

Lemma opt_eqb_spec (o : option nat) (a : nat) : opt_eqb o a = true <-> o = Some a.
Proof.
  destruct o as [m|]; simpl; [rewrite Nat.eqb_eq; split; intros; congruence|done].
Qed.

Lemma count_alpha_In (l : list pixel) (p : pixel) : In p l -> 0 < count_alpha l (alpha p).
Proof.
  intros Hin. unfold count_alpha.
  assert (In p (List.filter (fun q => alpha q =? alpha p) l))
    by (apply filter_In; split; [done|apply Nat.eqb_refl]).
  destruct (List.filter _ l); [done|simpl; lia].
Qed.

Lemma image_eta (img : image) : mkImage (width img) (height img) (data img) = img.
Proof. destruct img. done. Qed.

End Remap.

(** ** C1: the two-mode remapping *)

(** C1. When the detector reports both modes [(A, B)] (so [A > B]), the
    remapper maps alpha [A] to [opaque_alpha] and alpha [B] to
    [transparent_alpha] and keeps every other alpha (0 included), whatever
    the order of the two targets. *)
Theorem transform_two_modes (img : image) (opaque_alpha transparent_alpha A B : nat)
    (Hwf : wf_image img) (Hd : detect_alpha_modes img = (Some A, Some B)) :
  B < A /\
  width (fst (transform_pixels img opaque_alpha transparent_alpha)) = width img /\
  height (fst (transform_pixels img opaque_alpha transparent_alpha)) = height img /\
  Forall2 (fun p q =>
      red q = red p /\ green q = green p /\ blue q = blue p /\
      alpha q = (if alpha p =? A then opaque_alpha
                 else if alpha p =? B then transparent_alpha else alpha p))
    (data img) (data (fst (transform_pixels img opaque_alpha transparent_alpha))).
Proof.
  destruct (detect_modes_occur img Hwf) as (Hh & Hl & Hlt).
  assert (HB : 0 < B) by (apply (Hl B); rewrite Hd; done).
  specialize (Hlt A B Hd).
  rewrite transform_pixels_spec by (apply Hwf). rewrite Hd. simpl.
  split; [done|split; [done|split; [done|]]].
  apply Forall2_map_r. intros [r g b a] _.
  destruct B as [|B']; [lia|]. unfold remap_pixel. simpl.
  destruct (a =? A); [done|]. destruct (a =? S B'); done.
Qed.

(** ** C3: the single-mode remapping *)

(** C3. When no low mode is detected, every pixel with alpha > 0 gets alpha
    [min(opaque_alpha, transparent_alpha)] and every pixel with alpha 0 is
    left as it is; RGB is kept. *)
Theorem transform_single_mode (img : image) (opaque_alpha transparent_alpha : nat)
    (Hwf : wf_image img) (Hlow : snd (detect_alpha_modes img) = None) :
  width (fst (transform_pixels img opaque_alpha transparent_alpha)) = width img /\
  height (fst (transform_pixels img opaque_alpha transparent_alpha)) = height img /\
  Forall2 (fun p q =>
      red q = red p /\ green q = green p /\ blue q = blue p /\
      (0 < alpha p -> alpha q = Nat.min opaque_alpha transparent_alpha) /\
      (alpha p = 0 -> q = p))
    (data img) (data (fst (transform_pixels img opaque_alpha transparent_alpha))).
Proof.
  destruct (detect_modes_occur img Hwf) as (Hh & _ & _).
  rewrite transform_pixels_spec by (apply Hwf).
  destruct (detect_alpha_modes img) as [hm lm]. simpl in Hlow, Hh |- *. subst lm.
  split; [done|split; [done|]].
  apply Forall2_map_r. intros [r g b a] _. unfold remap_pixel. simpl.
  destruct (Nat.ltb_spec 0 a); simpl.
  - split; [done|split; [done|split; [done|split; [done|lia]]]].
  - assert (a = 0) as -> by lia.
    destruct (opt_eqb hm 0) eqn:E.
    + apply opt_eqb_spec in E. apply Hh in E. lia.
    + simpl. repeat split; try done; lia.
Qed.

(** ** C6: the frame of the remapper *)

(** C6. The remapper keeps the width, the height, the number of pixels and
    the RGB channels of every pixel, and changes the alpha of a pixel only
    when that alpha is a detected mode. *)
Theorem transform_frame (img : image) (opaque_alpha transparent_alpha : nat)
    (Hwf : wf_image img) :
  width (fst (transform_pixels img opaque_alpha transparent_alpha)) = width img /\
  height (fst (transform_pixels img opaque_alpha transparent_alpha)) = height img /\
  length (data (fst (transform_pixels img opaque_alpha transparent_alpha)))
    = length (data img) /\
  Forall2 (fun p q =>
      red q = red p /\ green q = green p /\ blue q = blue p /\
      (alpha q <> alpha p ->
       fst (detect_alpha_modes img) = Some (alpha p) \/
       snd (detect_alpha_modes img) = Some (alpha p)))
    (data img) (data (fst (transform_pixels img opaque_alpha transparent_alpha))).
Proof.
  destruct (detect_modes_occur img Hwf) as (_ & Hl & _).
  pose proof (detect_single_mode img Hwf) as Hsingle.
  rewrite transform_pixels_spec by (apply Hwf). simpl.
  rewrite length_map. split; [done|split; [done|split; [done|]]].
  apply Forall2_map_r. intros p Hin.
  pose proof (remap_pixel_rgb (fst (detect_alpha_modes img)) (snd (detect_alpha_modes img))
                (Nat.min opaque_alpha transparent_alpha) opaque_alpha transparent_alpha p)
    as (Hr & Hg & Hb).
  split; [done|split; [done|split; [done|]]].
  pose proof (count_alpha_In _ _ Hin) as Hc.
  destruct (detect_alpha_modes img) as [hm lm]. simpl in Hl, Hsingle |- *.
  destruct p as [r g b a]. unfold remap_pixel. simpl in Hc |- *.
  destruct lm as [[|m]|].
  - destruct (Hl 0 eq_refl). lia.
  - simpl. destruct (opt_eqb hm a) eqn:E1; [intros _; left; apply opt_eqb_spec; done|].
    destruct (a =? S m) eqn:E2; [intros _; right; apply Nat.eqb_eq in E2; subst; done|].
    simpl. done.
  - destruct (Nat.ltb_spec 0 a); simpl.
    + intros _. left. apply Hsingle; done.
    + destruct (opt_eqb hm a) eqn:E1; [intros _; left; apply opt_eqb_spec; done|]. done.
Qed.

(** ** C7: fully transparent images *)

(** C7. On an image whose pixels all have alpha 0 the detector reports no
    mode and the remapper returns the image unchanged. *)
Theorem transform_all_transparent (img : image) (opaque_alpha transparent_alpha : nat)
    (Hwf : wf_image img) (H0 : Forall (fun p => alpha p = 0) (data img)) :
  detect_alpha_modes img = (None, None) /\
  fst (transform_pixels img opaque_alpha transparent_alpha) = img.
Proof.
  assert (Hd : detect_alpha_modes img = (None, None)).
  { rewrite detect_sorted.
    destruct (sort_desc (non_zero (alpha_hist img))) as [|[a c] r] eqn:E; [done|].
    assert (Hin : In (a, c) (sort_desc (non_zero (alpha_hist img)))) by (rewrite E; left; done).
    apply Permutation_in with (l' := non_zero (alpha_hist img)) in Hin;
      [|apply sort_desc_perm].
    apply In_non_zero in Hin as (Ha & Hc & ->); [|done].
    unfold count_alpha in Hc.
    destruct (List.filter (fun p => alpha p =? a) (data img)) as [|p ps] eqn:F;
      simpl in Hc; [lia|].
    assert (Hp : In p (List.filter (fun p => alpha p =? a) (data img))) by (rewrite F; left; done).
    apply filter_In in Hp as [Hp Heq]. apply Nat.eqb_eq in Heq.
    rewrite List.Forall_forall in H0. apply H0 in Hp. lia. }
  split; [done|].
  rewrite transform_pixels_spec by (apply Hwf). rewrite Hd. simpl.
  transitivity (mkImage (width img) (height img) (data img)); [|apply image_eta].
  f_equal. transitivity (map (fun p : pixel => p) (data img)); [|apply map_id].
  apply map_ext_in. intros [r g b a] Hin.
  rewrite List.Forall_forall in H0. apply H0 in Hin. simpl in Hin. subst a. done.
Qed.

(** ** C10: the reported modes *)

(** C10. Every reported mode is an alpha value in 1..255 that occurs in the
    image, and when both modes are reported they differ, the high mode
    being strictly larger. *)
Theorem detect_modes_valid (img : image) (Hwf : wf_image img) :
  (forall m, fst (detect_alpha_modes img) = Some m ->
     1 <= m <= 255 /\ 0 < count_alpha (data img) m) /\
  (forall m, snd (detect_alpha_modes img) = Some m ->
     1 <= m <= 255 /\ 0 < count_alpha (data img) m) /\
  (forall high low, detect_alpha_modes img = (Some high, Some low) ->
     high <> low /\ low < high).
Proof.
  destruct (detect_modes_occur img Hwf) as (Hh & Hl & Hlt).
  split; [|split].
  - intros m Hm. destruct (Hh m Hm). split; [lia|done].
  - intros m Hm. destruct (Hl m Hm). split; [lia|done].
  - intros h l Hd. specialize (Hlt h l Hd). lia.
Qed.

(** ** C2: the selection of the two modes *)

(** C2. With at least two distinct non-zero alphas, the detector picks the
    two alphas [t0], [t1] of greatest pixel counts (ties going to the larger
    alpha: every other occurring alpha ranks below [t1], which ranks below
    [t0]) and reports [(max t0 t1, min t0 t1)]; with a single non-zero alpha
    [V] it reports [(V, None)]. *)
Theorem detect_top_two (img : image) (Hwf : wf_image img) :
  ((exists a b, a <> b /\ 0 < a /\ 0 < b /\
      0 < count_alpha (data img) a /\ 0 < count_alpha (data img) b) ->
   exists t0 t1,
     0 < t0 /\ 0 < t1 /\ t0 <> t1 /\
     0 < count_alpha (data img) t0 /\ 0 < count_alpha (data img) t1 /\
     key_lt (data img) t1 t0 /\
     (forall a, 0 < a -> 0 < count_alpha (data img) a -> a <> t0 -> a <> t1 ->
        key_lt (data img) a t1) /\
     detect_alpha_modes img = (Some (Nat.max t0 t1), Some (Nat.min t0 t1))) /\
  (forall V, 0 < V -> 0 < count_alpha (data img) V ->
     (forall a, 0 < a -> 0 < count_alpha (data img) a -> a = V) ->
     detect_alpha_modes img = (Some V, None)).
Proof.
  pose proof (NoDup_sorted img) as Hnd.
  pose proof (sort_desc_sorted (non_zero (alpha_hist img))) as Hs.
  pose proof (In_sorted img Hwf) as Hin.
  rewrite detect_sorted.
  destruct (sort_desc (non_zero (alpha_hist img))) as [|[a0 c0] [|[a1 c1] r]].
  - split.
    + intros (a & b & _ & Ha & _ & Hca & _).
      destruct (proj2 (Hin a (count_alpha (data img) a))); done.
    + intros V HV HcV _. destruct (proj2 (Hin V (count_alpha (data img) V))); done.
  - split.
    + intros (a & b & Hab & Ha & Hb & Hca & Hcb).
      destruct (proj2 (Hin a _) (conj Ha (conj Hca eq_refl))) as [Ea|[]].
      destruct (proj2 (Hin b _) (conj Hb (conj Hcb eq_refl))) as [Eb|[]].
      inversion Ea. inversion Eb. congruence.
    + intros V HV HcV _.
      destruct (proj2 (Hin V _) (conj HV (conj HcV eq_refl))) as [E|[]].
      inversion E. done.
  - destruct (proj1 (Hin a0 c0) (or_introl eq_refl)) as (Ha0 & Hc0 & ->).
    destruct (proj1 (Hin a1 c1) (or_intror (or_introl eq_refl))) as (Ha1 & Hc1 & ->).
    simpl in Hnd. inversion Hnd as [|? ? Hn0 Hnd1]; subst.
    inversion Hnd1 as [|? ? Hn1 _]; subst.
    assert (H01 : a0 <> a1) by (intros ->; apply Hn0; left).
    inversion Hs as [|? ? Hs1 Hf0]; subst.
    inversion Hs1 as [|? ? _ Hf1]; subst.
    split.
    + intros _. exists a0, a1.
      split; [done|split; [done|split; [done|split; [done|split; [done|]]]]].
      split; [|split].
      * inversion Hf0 as [|? ? Hk _]; subst. unfold key_geP in Hk.
        rewrite key_ge_iff in Hk. unfold key_lt. lia.
      * intros a Ha Hca Hne0 Hne1.
        destruct (proj2 (Hin a _) (conj Ha (conj Hca eq_refl))) as [E|[E|Hr]];
          [inversion E; congruence|inversion E; congruence|].
        rewrite List.Forall_forall in Hf1. apply Hf1 in Hr.
        unfold key_geP in Hr. rewrite key_ge_iff in Hr. unfold key_lt. lia.
      * simpl. destruct (Nat.leb_spec a1 a0).
        -- rewrite Nat.max_l, Nat.min_r by lia. done.
        -- rewrite Nat.max_r, Nat.min_l by lia. done.
    + intros V HV HcV Hall.
      exfalso. apply H01. rewrite (Hall a0), (Hall a1); done.
Qed.

(** ** C9: determinism of the detector *)

(** Images of equal alpha buckets have equal histograms. *)
Lemma alpha_hist_ext (img1 img2 : image) :
  wf_image img1 -> wf_image img2 ->
  (forall a, 0 < a -> count_alpha (data img1) a = count_alpha (data img2) a) ->
  alpha_hist img1 = alpha_hist img2.
Proof.
  intros H1 H2 Hc. apply list_eq. intros i.
  destruct (Nat.lt_ge_cases i 256) as [Hi|Hi].
  - rewrite !alpha_hist_count by done.
    destruct (Nat.ltb_spec 0 i); [rewrite Hc by done|]; done.
  - rewrite !lookup_ge_None_2; [done| |]; rewrite length_alpha_hist; done.
Qed.

(** C9. The detector is deterministic: its result depends on nothing but the
    pixel count of each non-zero alpha, so two runs on the same image (or on
    any two images with the same counts) give the same [(high, low)]. *)
Theorem detect_deterministic (img1 img2 : image)
    (H1 : wf_image img1) (H2 : wf_image img2)
    (Hc : forall a, 0 < a -> count_alpha (data img1) a = count_alpha (data img2) a) :
  detect_alpha_modes img1 = detect_alpha_modes img2.
Proof.
  unfold detect_alpha_modes. rewrite (alpha_hist_ext img1 img2 H1 H2 Hc). done.
Qed.

(** ** C5: the diagnostic [changed] count *)

Lemma length_filter_combine_map (f : pixel * pixel -> bool) (h : pixel -> bool)
    (g : pixel -> pixel) (l : list pixel) :
  (forall x, f (x, g x) = true -> h x = true) ->
  length (List.filter f (combine l (map g l))) <= length (List.filter h l).
Proof.
  intros Hfh. induction l as [|x l IH]; simpl; [lia|].
  destruct (f (x, g x)) eqn:E.
  - rewrite (Hfh x E). simpl. lia.
  - destruct (h x); simpl; lia.
Qed.

(** C5 (as the code does it). The [changed] count is the number of pixels
    whose alpha is a detected mode (in the single-mode case: every pixel
    with alpha > 0), whether or not the new alpha differs from the old one;
    it bounds the number of pixels whose alpha really changed. When the two
    targets are the two detected modes, the output equals the input. *)
Theorem transform_changed_count (img : image) (opaque_alpha transparent_alpha : nat)
    (Hwf : wf_image img) :
  snd (transform_pixels img opaque_alpha transparent_alpha) =
    length (List.filter (fun p => opt_eqb (fst (detect_alpha_modes img)) (alpha p) ||
                                  opt_eqb (snd (detect_alpha_modes img)) (alpha p))
                        (data img)) /\
  count_changed img (fst (transform_pixels img opaque_alpha transparent_alpha))
    <= snd (transform_pixels img opaque_alpha transparent_alpha) /\
  (forall A B, detect_alpha_modes img = (Some A, Some B) ->
     opaque_alpha = A -> transparent_alpha = B ->
     fst (transform_pixels img opaque_alpha transparent_alpha) = img).
Proof.
  destruct (detect_modes_occur img Hwf) as (Hh & Hl & _).
  pose proof (detect_single_mode img Hwf) as Hsingle.
  rewrite transform_pixels_spec by (apply Hwf). simpl.
  split; [|split].
  - f_equal. apply filter_ext_in. intros p Hin.
    pose proof (count_alpha_In _ _ Hin) as Hc.
    destruct (detect_alpha_modes img) as [hm lm]. simpl in Hl, Hsingle, Hh |- *.
    destruct p as [r g b a]. simpl in Hc |- *. unfold remap_pixel.
    destruct lm as [[|m]|].
    + destruct (Hl 0 eq_refl). lia.
    + simpl. destruct (opt_eqb hm a); [done|]. destruct (a =? S m); done.
    + destruct (Nat.ltb_spec 0 a); simpl.
      * rewrite (Hsingle a eq_refl) by done. simpl. rewrite Nat.eqb_refl. done.
      * destruct (opt_eqb hm a); done.
  - unfold count_changed. simpl.
    apply length_filter_combine_map. intros p Hch.
    destruct (snd (remap_pixel (fst (detect_alpha_modes img)) (snd (detect_alpha_modes img))
                 (Nat.min opaque_alpha transparent_alpha) opaque_alpha transparent_alpha p))
      eqn:E; [done|].
    apply remap_pixel_pass in E. simpl in Hch. rewrite E, Nat.eqb_refl in Hch. done.
  - intros A B Hd -> ->.
    assert (HB : 0 < B) by (apply (Hl B); rewrite Hd; done).
    rewrite Hd. simpl.
    transitivity (mkImage (width img) (height img) (data img)); [|apply image_eta].
    f_equal. transitivity (map (fun p : pixel => p) (data img)); [|apply map_id].
    apply map_ext. intros [r g b a].
    destruct B as [|B']; [lia|]. unfold remap_pixel. simpl.
    destruct (Nat.eqb_spec a A); [subst; done|].
    destruct (Nat.eqb_spec a (S B')); subst; done.
Qed.

(** C5 fails as stated: in the identity case of the spec (image [ex2],
    targets 102 and 38) no alpha changes, yet the count is 2. *)
Lemma transform_changed_count_cex :
  fst (transform_pixels ex2 102 38) = ex2 /\
  count_changed ex2 (fst (transform_pixels ex2 102 38)) = 0 /\
  snd (transform_pixels ex2 102 38) = 2.
Proof. vm_compute. split; [reflexivity|split; reflexivity]. Qed.

(** ** The batch driver *)

Lemma count_saved_app (es1 es2 : list event) :
  count_saved (es1 ++ es2) = count_saved es1 + count_saved es2.
Proof. unfold count_saved. rewrite List.filter_app, length_app. done. Qed.

Section DriverProofs.

Variable fs : filesystem.
Variable ROOT : string.

Lemma transform_image_saves_one (in_path out_path : string) (oa ta : nat) (s s' : list event) :
  transform_image fs in_path out_path oa ta s = (Ok tt, s') ->
  exists added, s' = s ++ added /\ count_saved added = 1.
Proof.
  unfold transform_image. destruct (open_convert fs in_path) as [img|]; [|done].
  destruct (transform_pixels img oa ta) as [out changed].
  unfold bind, emit. intros E. inversion E; subst.
  eexists. split; [rewrite <- !app_assoc; done|]. done.
Qed.

Lemma folder_loop_counts (in_dir out_dir : string) (oa ta : nat) (names : list string) :
  forall count, counts_saves (folder_loop fs in_dir out_dir oa ta names count) count.
Proof.
  induction names as [|name names IH]; intros count s n s' E; simpl in E.
  - inversion E; subst. exists []. rewrite app_nil_r. done.
  - destruct (negb (is_png name)).
    + apply (IH count). done.
    + unfold bind in E.
      destruct (transform_image fs (join in_dir name) (join out_dir name) oa ta s)
        as [[[]|e] s1] eqn:T; [|done].
      apply transform_image_saves_one in T as (a1 & -> & Ha1).
      destruct (IH (count + 1) _ _ _ E) as (a2 & -> & Hn).
      exists (a1 ++ a2). rewrite app_assoc, count_saved_app. split; [done|lia].
Qed.

Lemma process_folder_counts (in_dir out_dir : string) (oa ta : nat) :
  counts_saves (process_folder fs in_dir out_dir oa ta) 0.
Proof.
  intros s n s' E. unfold process_folder in E.
  destruct (negb (isdir fs in_dir)); unfold bind, emit, ret in E.
  - inversion E; subst. exists [Skipped in_dir]. done.
  - destruct (folder_loop_counts in_dir out_dir oa ta (listdir fs in_dir) 0 _ _ _ E)
      as (a & -> & Hn).
    exists (MakeDirs out_dir :: a). rewrite <- app_assoc. split; [done|].
    rewrite Hn. done.
Qed.

Lemma variants_loop_counts (vs : list variant) :
  forall total, counts_saves (variants_loop fs ROOT vs total) total.
Proof.
  induction vs as [|v vs IH]; intros total s n s' E; simpl in E.
  - inversion E; subst. exists []. rewrite app_nil_r. done.
  - unfold bind in E.
    repeat match type of E with
    | context [process_folder fs ?i ?o ?a ?b ?s0] =>
        let T := fresh "T" in
        destruct (process_folder fs i o a b s0) as [[?|?] ?] eqn:T; [|done];
        apply process_folder_counts in T as (? & -> & ?)
    end.
    match type of E with
    | context [if isfile fs ?p then _ else _] => destruct (isfile fs p)
    end.
    + match type of E with
      | context [transform_image fs ?i ?o ?a ?b ?s0] =>
          destruct (transform_image fs i o a b s0) as [[[]|?] ?] eqn:T; [|done];
          apply transform_image_saves_one in T as (? & -> & ?)
      end.
      unfold ret in E.
      destruct (IH _ _ _ _ E) as (a' & -> & Hn).
      eexists. rewrite <- !app_assoc. split; [done|].
      rewrite !count_saved_app. lia.
    + unfold ret in E.
      destruct (IH _ _ _ _ E) as (a' & -> & Hn).
      eexists. rewrite <- !app_assoc. split; [done|].
      rewrite !count_saved_app. lia.
Qed.

End DriverProofs.

(** ** C8: missing folders and the running total *)

(** C8. A missing input folder is skipped: [process_folder] only prints the
    skip message and returns 0, so the batch goes on.  Every successful
    [process_folder] returns the number of images it saved, and when [main]
    completes, the total it reports is the number of images saved. *)
Theorem batch_totals (fs : filesystem) (ROOT : string) :
  (forall in_dir out_dir oa ta s, isdir fs in_dir = false ->
     process_folder fs in_dir out_dir oa ta s = (Ok 0, s ++ [Skipped in_dir])) /\
  (forall in_dir out_dir oa ta s n s',
     process_folder fs in_dir out_dir oa ta s = (Ok n, s') ->
     exists added, s' = s ++ added /\ n = count_saved added) /\
  (forall s', main fs ROOT [] = (Ok 0, s') ->
     exists total, last s' = Some (Done total (length VARIANTS)) /\
                   total = count_saved s').
Proof.
  split; [|split].
  - intros in_dir out_dir oa ta s H. unfold process_folder. rewrite H. done.
  - intros in_dir out_dir oa ta s n s' E.
    apply process_folder_counts in E. done.
  - intros s' E. unfold main, bind in E.
    destruct (variants_loop fs ROOT VARIANTS 0 []) as [[total|e] s1] eqn:V; [|done].
    apply variants_loop_counts in V as (a & -> & Hn).
    unfold emit, ret in E. inversion E; subst.
    exists (count_saved a). rewrite last_snoc, count_saved_app. simpl.
    split; [done|]. replace (count_saved [Done (count_saved a) 3]) with 0 by reflexivity. lia.
Qed.

(** ** C4: an unreadable image aborts the run *)

Lemma transform_image_ok (fs : filesystem) (in_path out_path : string) (oa ta : nat)
    (img : image) (s : list event) :
  open_convert fs in_path = Some img ->
  transform_image fs in_path out_path oa ta s =
  (Ok tt, s ++ [MakeParentDirs out_path;
                Saved out_path (fst (transform_pixels img oa ta));
                Processed in_path out_path (snd (transform_pixels img oa ta))]).
Proof.
  intros H. unfold transform_image. rewrite H.
  destruct (transform_pixels img oa ta) as [out changed]. simpl.
  unfold bind, emit. rewrite <- !app_assoc. done.
Qed.

Lemma folder_loop_abort (fs : filesystem) (in_dir out_dir : string) (oa ta : nat)
    (names1 : list string) (bad : string) (names2 : list string) :
  (forall n, In n names1 -> is_png n = true -> open_convert fs (join in_dir n) <> None) ->
  is_png bad = true -> open_convert fs (join in_dir bad) = None ->
  forall count s, exists e added,
    folder_loop fs in_dir out_dir oa ta (names1 ++ bad :: names2) count s = (Exc e, s ++ added) /\
    (forall p img, In (Saved p img) added -> exists n, In n names1 /\ p = join out_dir n).
Proof.
  intros Hok Hpng Hbad. induction names1 as [|n names1 IH]; intros count s; simpl.
  - rewrite Hpng. simpl. unfold bind, transform_image. rewrite Hbad. unfold raise.
    eexists _, []. rewrite app_nil_r. split; [done|]. intros ? ? [].
  - assert (Hok' : forall m, In m names1 -> is_png m = true ->
                   open_convert fs (join in_dir m) <> None)
      by (intros m Hm; apply Hok; right; done).
    destruct (is_png n) eqn:Hn; simpl.
    + destruct (open_convert fs (join in_dir n)) as [img|] eqn:Hi;
        [|exfalso; apply (Hok n (or_introl eq_refl) Hn); done].
      unfold bind at 1. rewrite (transform_image_ok fs _ _ _ _ img) by done.
      destruct (IH Hok' (count + 1)
                  (s ++ [MakeParentDirs (join out_dir n);
                         Saved (join out_dir n) (fst (transform_pixels img oa ta));
                         Processed (join in_dir n) (join out_dir n)
                           (snd (transform_pixels img oa ta))]))
        as (e & added & E & Hs).
      rewrite E, <- app_assoc. eexists _, _. split; [done|].
      intros p img' Hin. simpl in Hin.
      destruct Hin as [Hin|[Hin|[Hin|Hin]]]; try discriminate.
      * inversion Hin; subst. exists n. split; [left|]; done.
      * destruct (Hs p img' Hin) as (m & Hm & ->). exists m. split; [right|]; done.
    + destruct (IH Hok' count s) as (e & added & E & Hs).
      eexists _, _. split; [exact E|].
      intros p img' Hin. destruct (Hs p img' Hin) as (m & Hm & ->).
      exists m. split; [right|]; done.
Qed.

(** C4 fails as stated: with a corrupt [a.png] listed before a readable
    [b.png], the run ends with an uncaught exception and [b.png] (like every
    other unit of the batch) is never processed: nothing is saved at all. *)
Lemma batch_continues_cex :
  open_convert fs_cex "r/graphics/base/edge/b.png" = Some ex2 /\
  exit_status (fst (main fs_cex "r" [])) = 1 /\
  (forall p img, ~ In (Saved p img) (snd (main fs_cex "r" []))).
Proof.
  split; [reflexivity|split; [reflexivity|]].
  intros p img. vm_compute. intros [H|[]]. discriminate.
Qed.

(** ** Witnesses: the hypotheses of the theorems hold on sample inputs *)

Ltac wf_tac :=
  split; [reflexivity|];
  apply List.Forall_forall; intros ? Hp; simpl in Hp;
  repeat (destruct Hp as [<-|Hp]; [simpl; lia|]); destruct Hp.

Lemma transform_two_modes_witness :
  wf_image ex2 /\ detect_alpha_modes ex2 = (Some 102, Some 38) /\
  Forall2 (fun p q => alpha q = (if alpha p =? 102 then 26
                                 else if alpha p =? 38 then 64 else alpha p))
    (data ex2) (data (fst (transform_pixels ex2 26 64))).
Proof.
  assert (Hw : wf_image ex2) by wf_tac.
  split; [exact Hw|split; [reflexivity|]].
  destruct (transform_two_modes ex2 26 64 102 38 Hw eq_refl) as (_ & _ & _ & H).
  eapply Forall2_impl; [exact H|]. intros p q (_ & _ & _ & Ha). exact Ha.
Defined.

Lemma transform_single_mode_witness :
  wf_image img_single /\ snd (detect_alpha_modes img_single) = None /\
  width (fst (transform_pixels img_single 102 38)) = width img_single.
Proof.
  assert (Hw : wf_image img_single) by wf_tac.
  split; [exact Hw|split; [reflexivity|]].
  exact (proj1 (transform_single_mode img_single 102 38 Hw eq_refl)).
Defined.

Lemma transform_frame_witness :
  wf_image ex2 /\
  length (data (fst (transform_pixels ex2 26 64))) = length (data ex2).
Proof.
  assert (Hw : wf_image ex2) by wf_tac.
  split; [exact Hw|].
  exact (proj1 (proj2 (proj2 (transform_frame ex2 26 64 Hw)))).
Defined.

Lemma transform_all_transparent_witness :
  wf_image img_clear /\ Forall (fun p => alpha p = 0) (data img_clear) /\
  fst (transform_pixels img_clear 102 38) = img_clear.
Proof.
  assert (Hw : wf_image img_clear) by wf_tac.
  assert (H0 : Forall (fun p => alpha p = 0) (data img_clear))
    by (repeat constructor).
  split; [exact Hw|split; [exact H0|]].
  exact (proj2 (transform_all_transparent img_clear 102 38 Hw H0)).
Defined.

Lemma detect_modes_valid_witness :
  wf_image ex2 /\ 1 <= 102 <= 255 /\ 0 < count_alpha (data ex2) 102.
Proof.
  assert (Hw : wf_image ex2) by wf_tac.
  split; [exact Hw|].
  exact (proj1 (detect_modes_valid ex2 Hw) 102 eq_refl).
Defined.

Lemma detect_top_two_witness :
  wf_image img_three /\
  exists t0 t1, key_lt (data img_three) t1 t0 /\
    detect_alpha_modes img_three = (Some (Nat.max t0 t1), Some (Nat.min t0 t1)).
Proof.
  assert (Hw : wf_image img_three) by wf_tac.
  split; [exact Hw|].
  destruct (proj1 (detect_top_two img_three Hw))
    as (t0 & t1 & _ & _ & _ & _ & _ & Hk & _ & Hd).
  - exists 10, 20. vm_compute. repeat split; lia.
  - exists t0, t1. split; [exact Hk|exact Hd].
Defined.

Lemma detect_deterministic_witness :
  wf_image ex2 /\ wf_image ex2_flipped /\
  detect_alpha_modes ex2 = detect_alpha_modes ex2_flipped.
Proof.
  assert (H1 : wf_image ex2) by wf_tac.
  assert (H2 : wf_image ex2_flipped) by wf_tac.
  split; [exact H1|split; [exact H2|]].
  apply (detect_deterministic ex2 ex2_flipped H1 H2).
  intros a _. unfold count_alpha, ex2, ex2_flipped. cbn [List.filter data alpha].
  destruct (102 =? a), (38 =? a); reflexivity.
Defined.

Lemma transform_changed_count_witness :
  wf_image ex2 /\
  count_changed ex2 (fst (transform_pixels ex2 102 38)) <= snd (transform_pixels ex2 102 38).
Proof.
  assert (Hw : wf_image ex2) by wf_tac.
  split; [exact Hw|].
  exact (proj1 (proj2 (transform_changed_count ex2 102 38 Hw))).
Defined.

(** * Further properties of the script *)

(** ** Conversion of the variant fractions to 8-bit targets *)



(** ** File names and paths *)

Section Strings.

Lemma slen_append (a b : string) :
  String.length (String.append a b) = String.length a + String.length b.
Proof. induction a as [|c a IH]; simpl; auto. Qed.

Lemma slen_lower (s : string) : String.length (lower s) = String.length s.
Proof. induction s as [|c s IH]; simpl; auto. Qed.

Lemma lower_append (a b : string) :
  lower (String.append a b) = String.append (lower a) (lower b).
Proof. induction a as [|c a IH]; simpl; [done|]. rewrite IH. done. Qed.

Lemma substring_append_l (a b : string) (m : nat) :
  substring (String.length a) m (String.append a b) = substring 0 m b.
Proof. induction a as [|c a IH]; simpl; [done|]. apply IH. Qed.

Lemma substring_full (b : string) : substring 0 (String.length b) b = b.
Proof. induction b as [|c b IH]; simpl; [done|]. rewrite IH. done. Qed.

Lemma substring_lower (s : string) (i k : nat) :
  substring i k (lower s) = lower (substring i k s).
Proof.
  revert i k. induction s as [|c s IH]; intros [|i] [|k]; simpl; try done;
    rewrite ?IH; done.
Qed.

Lemma string_split (s : string) (i : nat) :
  i <= String.length s ->
  s = String.append (substring 0 i s) (substring i (String.length s - i) s).
Proof.
  revert i. induction s as [|c s IH]; intros [|i] Hi; simpl in *.
  - done.
  - lia.
  - rewrite substring_full. done.
  - f_equal. apply IH. lia.
Qed.

Lemma endswith_append (s suf : string) : endswith suf (String.append s suf) = true.
Proof.
  unfold endswith. rewrite slen_append.
  replace (String.length s + String.length suf - String.length suf)
    with (String.length s) by lia.
  rewrite substring_append_l, substring_full, String.eqb_refl.
  replace (String.length suf <=? String.length s + String.length suf) with true
    by (symmetry; apply Nat.leb_le; lia).
  done.
Qed.

Lemma list_ascii_of_string_append (a b : string) :
  list_ascii_of_string (String.append a b) = list_ascii_of_string a ++ list_ascii_of_string b.
Proof. induction a as [|c a IH]; simpl; [done|]. rewrite IH. done. Qed.

Lemma append_inj_l (a x y : string) : String.append a x = String.append a y -> x = y.
Proof. induction a as [|c a IH]; simpl; [done|]. intros H. inversion H. auto. Qed.

Lemma append_inj_r (x y b : string) : String.append x b = String.append y b -> x = y.
Proof.
  intros H. apply (f_equal list_ascii_of_string) in H.
  rewrite !list_ascii_of_string_append in H. apply app_inv_tail in H.
  rewrite <- (string_of_list_ascii_of_string x), <- (string_of_list_ascii_of_string y), H.
  done.
Qed.

Lemma join_graphics_inj (ROOT t1 t2 x : string) :
  join (join (join ROOT "graphics") t1) x = join (join (join ROOT "graphics") t2) x ->
  t1 = t2.
Proof.
  unfold join. intros H. apply append_inj_r in H. apply append_inj_l in H.
  inversion H. done.
Qed.

End Strings.

(** X: [name.lower().endswith(".png")] holds exactly for the names whose
    last four characters are [.png] in any letter case. *)
Theorem is_png_iff (name : string) :
  is_png name = true <->
  exists stem suf, name = String.append stem suf /\ lower suf = ".png"%string.
Proof.
  split.
  - unfold is_png, endswith. rewrite slen_lower. intros H.
    apply andb_prop in H as [Hk Hs]. apply Nat.leb_le in Hk. simpl in Hk.
    apply String.eqb_eq in Hs. rewrite substring_lower in Hs.
    exists (substring 0 (String.length name - 4) name),
           (substring (String.length name - 4) 4 name).
    split; [|exact Hs].
    replace 4 with (String.length name - (String.length name - 4)) at 3 by lia.
    apply string_split. lia.
  - intros (stem & suf & -> & Hsuf). unfold is_png.
    rewrite lower_append, Hsuf. apply endswith_append.
Qed.

(** X: for tags that are plain folder names (non-empty, no ['/']), the
    output folders of a variant depend injectively on its tag, and an output
    folder is an input folder only for the tag [base]; the tags of [VARIANTS]
    are plain names other than [base] and pairwise distinct, so no variant
    writes into the inputs and two variants never share an output folder. *)
Theorem output_dirs_separate (ROOT : string) :
  (forall t1 t2, plain_name t1 = true -> plain_name t2 = true ->
     (edges_out_dir ROOT t1 = edges_out_dir ROOT t2 \/
      corners_out_dir ROOT t1 = corners_out_dir ROOT t2 \/
      centers_out_dir ROOT t1 = centers_out_dir ROOT t2 \/
      border_out_path ROOT t1 = border_out_path ROOT t2) -> t1 = t2) /\
  (forall t, plain_name t = true ->
     ((edges_out_dir ROOT t = EDGES_IN ROOT \/
       corners_out_dir ROOT t = CORNERS_IN ROOT \/
       centers_out_dir ROOT t = CENTERS_IN ROOT \/
       border_out_path ROOT t = BORDER_IN ROOT) <-> t = "base"%string)) /\
  (forall v, In v VARIANTS ->
     plain_name (tag v) = true /\
     edges_out_dir ROOT (tag v) <> EDGES_IN ROOT /\
     corners_out_dir ROOT (tag v) <> CORNERS_IN ROOT /\
     centers_out_dir ROOT (tag v) <> CENTERS_IN ROOT /\
     border_out_path ROOT (tag v) <> BORDER_IN ROOT) /\
  NoDup (map tag VARIANTS).
Proof.
  assert (Hbase : forall t,
     (edges_out_dir ROOT t = EDGES_IN ROOT \/
      corners_out_dir ROOT t = CORNERS_IN ROOT \/
      centers_out_dir ROOT t = CENTERS_IN ROOT \/
      border_out_path ROOT t = BORDER_IN ROOT) <-> t = "base"%string).
  { intros t. split.
    - unfold edges_out_dir, corners_out_dir, centers_out_dir, border_out_path,
        EDGES_IN, CORNERS_IN, CENTERS_IN, BORDER_IN, variant_root, GFX.
      intros [H|[H|[H|H]]]; eapply join_graphics_inj; exact H.
    - intros ->. left. done. }
  split; [|split; [intros t _; exact (Hbase t)|split]].
  - intros t1 t2 _ _.
    unfold edges_out_dir, corners_out_dir, centers_out_dir, border_out_path,
      variant_root, GFX.
    intros [H|[H|[H|H]]]; eapply join_graphics_inj; exact H.
  - intros v Hv.
    assert (Hne : plain_name (tag v) = true /\ tag v <> "base"%string)
      by (simpl in Hv; destruct Hv as [<-|[<-|[<-|[]]]]; split; try reflexivity; discriminate).
    destruct Hne as [Hp Hne].
    split; [exact Hp|]. split; [|split; [|split]]; intros H; apply Hne, Hbase; auto.
  - apply NoDup_ListNoDup. simpl. repeat constructor; simpl; intuition discriminate.
Qed.

Lemma output_dirs_separate_witness :
  (plain_name "a40_15" = true /\ plain_name "a20_075" = true) /\
  (edges_out_dir "r" "a40_15" = edges_out_dir "r" "a20_075" -> "a40_15"%string = "a20_075"%string).
Proof.
  split; [split; reflexivity|].
  intros E. apply (proj1 (output_dirs_separate "r") "a40_15"%string "a20_075"%string eq_refl eq_refl). left. exact E.
Defined.

(** ** The remapper on 8-bit images *)

(** X: with 8-bit targets, the remapped image is again a decoded RGBA image
    of the same size; each output alpha is the input alpha or one of the two
    targets, and a fully transparent pixel is copied unchanged, whatever the
    detected modes. *)
Theorem transform_keeps_wf (img : image) (oa ta : nat)
    (Hwf : wf_image img) (Hoa : oa < 256) (Hta : ta < 256) :
  wf_image (fst (transform_pixels img oa ta)) /\
  Forall2 (fun p q =>
      (alpha q = alpha p \/ alpha q = oa \/ alpha q = ta) /\
      (alpha p = 0 -> q = p))
    (data img) (data (fst (transform_pixels img oa ta))).
Proof.
  destruct (detect_modes_occur img Hwf) as (Hh & Hl & _).
  destruct Hwf as [Hlen Hch].
  rewrite transform_pixels_spec by exact Hlen.
  destruct (detect_alpha_modes img) as [hm lm]. simpl in Hh, Hl |- *.
  assert (Hpix : forall p, In p (data img) ->
    (red (fst (remap_pixel hm lm (Nat.min oa ta) oa ta p)) < 256 /\
     green (fst (remap_pixel hm lm (Nat.min oa ta) oa ta p)) < 256 /\
     blue (fst (remap_pixel hm lm (Nat.min oa ta) oa ta p)) < 256 /\
     alpha (fst (remap_pixel hm lm (Nat.min oa ta) oa ta p)) < 256) /\
    (alpha (fst (remap_pixel hm lm (Nat.min oa ta) oa ta p)) = alpha p \/
     alpha (fst (remap_pixel hm lm (Nat.min oa ta) oa ta p)) = oa \/
     alpha (fst (remap_pixel hm lm (Nat.min oa ta) oa ta p)) = ta) /\
    (alpha p = 0 -> fst (remap_pixel hm lm (Nat.min oa ta) oa ta p) = p)).
  { intros [r g b a] Hin.
    rewrite List.Forall_forall in Hch. specialize (Hch _ Hin). simpl in Hch.
    unfold remap_pixel. simpl.
    destruct ((match lm with None => true | Some 0 => true | Some _ => false end)
              && (0 <? a)) eqn:E1; simpl.
    { apply andb_prop in E1 as [_ E1]. apply Nat.ltb_lt in E1.
      split; [lia|split; [lia|lia]]. }
    destruct (opt_eqb hm a) eqn:E2; simpl.
    { split; [lia|split; [lia|]]. intros ->.
      apply opt_eqb_spec, Hh in E2. lia. }
    destruct (opt_eqb lm a) eqn:E3; simpl.
    { split; [lia|split; [lia|]]. intros ->.
      apply opt_eqb_spec, Hl in E3. lia. }
    split; [lia|split; [lia|done]]. }
  split; [split|].
  - simpl. rewrite length_map. exact Hlen.
  - simpl. apply List.Forall_forall. intros q Hq. apply in_map_iff in Hq as (p & <- & Hp).
    apply Hpix. exact Hp.
  - apply Forall2_map_r. intros p Hp. apply Hpix. exact Hp.
Qed.

Lemma transform_keeps_wf_witness :
  (wf_image img_single /\ 102 < 256 /\ 38 < 256) /\
  wf_image (fst (transform_pixels img_single 102 38)).
Proof.
  assert (Hw : wf_image img_single) by wf_tac.
  split; [split; [exact Hw|lia]|].
  exact (proj1 (transform_keeps_wf img_single 102 38 Hw ltac:(lia) ltac:(lia))).
Defined.

(** ** Folders and the batch when the inputs decode *)

Section Batch.

Variable fs : filesystem.

Lemma folder_events_cons (in_dir out_dir : string) (oa ta : nat) (n : string)
    (names : list string) :
  folder_events fs in_dir out_dir oa ta (n :: names) =
  (if is_png n then
     match open_convert fs (join in_dir n) with
     | Some img =>
         [MakeParentDirs (join out_dir n);
          Saved (join out_dir n) (fst (transform_pixels img oa ta));
          Processed (join in_dir n) (join out_dir n) (snd (transform_pixels img oa ta))]
     | None => []
     end
   else []) ++ folder_events fs in_dir out_dir oa ta names.
Proof. unfold folder_events. simpl. destruct (is_png n); done. Qed.

Lemma folder_loop_ok (in_dir out_dir : string) (oa ta : nat) (names : list string) :
  (forall n, In n names -> is_png n = true -> open_convert fs (join in_dir n) <> None) ->
  forall count s,
  folder_loop fs in_dir out_dir oa ta names count s =
  (Ok (count + length (List.filter is_png names)),
   s ++ folder_events fs in_dir out_dir oa ta names).
Proof.
  induction names as [|name names IH]; intros Hdec count s; simpl.
  - unfold folder_events, ret. simpl. rewrite Nat.add_0_r, app_nil_r. done.
  - rewrite folder_events_cons. destruct (is_png name) eqn:Ep; simpl.
    + destruct (open_convert fs (join in_dir name)) as [img|] eqn:Eo.
      2:{ exfalso. apply (Hdec name); [left|..]; done. }
      unfold bind. rewrite (transform_image_ok fs _ _ oa ta img s Eo).
      rewrite IH by (intros n Hn; apply Hdec; right; done).
      rewrite <- app_assoc. f_equal. f_equal. lia.
    + apply IH. intros n Hn. apply Hdec. right. done.
Qed.

Lemma folder_loop_fail (in_dir out_dir : string) (oa ta : nat) (names : list string) :
  (exists n, In n names /\ is_png n = true /\ open_convert fs (join in_dir n) = None) ->
  forall count s, exists e s',
  folder_loop fs in_dir out_dir oa ta names count s = (Exc e, s').
Proof.
  induction names as [|name names IH]; intros (n & Hn & Hp & Ho) count s; [destruct Hn|].
  simpl. destruct Hn as [<-|Hn].
  - rewrite Hp. simpl. unfold bind, transform_image. rewrite Ho. unfold raise.
    eexists _, _. done.
  - destruct (negb (is_png name)).
    + apply IH. eauto.
    + unfold bind.
      destruct (transform_image fs (join in_dir name) (join out_dir name) oa ta s)
        as [[[]|e] s1]; [|eexists _, _; done].
      apply IH. eauto.
Qed.

Lemma saved_paths_app (a b : list event) :
  saved_paths (a ++ b) = saved_paths a ++ saved_paths b.
Proof. unfold saved_paths. apply flat_map_app. Qed.

Lemma saved_paths_folder_events (in_dir out_dir : string) (oa ta : nat)
    (names : list string) :
  (forall n, In n names -> is_png n = true -> open_convert fs (join in_dir n) <> None) ->
  saved_paths (folder_events fs in_dir out_dir oa ta names) =
  map (join out_dir) (List.filter is_png names).
Proof.
  induction names as [|name names IH]; intros Hdec; [done|].
  rewrite folder_events_cons, saved_paths_app. simpl.
  destruct (is_png name) eqn:Ep; simpl.
  - destruct (open_convert fs (join in_dir name)) as [img|] eqn:Eo.
    2:{ exfalso. apply (Hdec name); [left|..]; done. }
    simpl. f_equal. apply IH. intros n Hn. apply Hdec. right. done.
  - apply IH. intros n Hn. apply Hdec. right. done.
Qed.

Lemma process_folder_ok_n (d out_dir : string) (oa ta : nat) (s : list event) :
  (isdir fs d = true ->
   forall n, In n (listdir fs d) -> is_png n = true -> open_convert fs (join d n) <> None) ->
  exists s', process_folder fs d out_dir oa ta s = (Ok (npng fs d), s').
Proof.
  intros Hdec. unfold process_folder, npng.
  destruct (isdir fs d) eqn:Ed; simpl; unfold bind, emit, ret.
  - rewrite folder_loop_ok by (apply Hdec; done). eexists. done.
  - eexists. done.
Qed.

Lemma process_folder_fail (d out_dir : string) (oa ta : nat) (s : list event) :
  isdir fs d = true ->
  (exists n, In n (listdir fs d) /\ is_png n = true /\ open_convert fs (join d n) = None) ->
  exists e s', process_folder fs d out_dir oa ta s = (Exc e, s').
Proof.
  intros Ed Hbad. unfold process_folder. rewrite Ed. simpl. unfold bind, emit.
  apply folder_loop_fail. exact Hbad.
Qed.

Variable ROOT : string.

Lemma variants_loop_ok (Hdec : inputs_decode fs ROOT) (vs : list variant) :
  forall total s, exists s',
  variants_loop fs ROOT vs total s = (Ok (total + length vs * files_per_variant fs ROOT), s').
Proof.
  destruct Hdec as [Hdirs Hb].
  induction vs as [|v vs IH]; intros total s; simpl.
  - eexists. unfold ret. rewrite Nat.add_0_r. done.
  - unfold bind.
    destruct (process_folder_ok_n (EDGES_IN ROOT) (edges_out_dir ROOT (tag v))
      (to_8bit (fst (opaque_frac v)) (snd (opaque_frac v)))
      (to_8bit (fst (transparent_frac v)) (snd (transparent_frac v))) s)
      as [s1 E1]; [apply Hdirs; simpl; auto|]. rewrite E1.
    destruct (process_folder_ok_n (CORNERS_IN ROOT) (corners_out_dir ROOT (tag v))
      (to_8bit (fst (opaque_frac v)) (snd (opaque_frac v)))
      (to_8bit (fst (transparent_frac v)) (snd (transparent_frac v))) s1)
      as [s2 E2]; [apply Hdirs; simpl; auto|]. rewrite E2.
    destruct (process_folder_ok_n (CENTERS_IN ROOT) (centers_out_dir ROOT (tag v))
      (to_8bit (fst (opaque_frac v)) (snd (opaque_frac v)))
      (to_8bit (fst (transparent_frac v)) (snd (transparent_frac v))) s2)
      as [s3 E3]; [apply Hdirs; simpl; auto|]. rewrite E3.
    unfold files_per_variant.
    destruct (isfile fs (BORDER_IN ROOT)) eqn:Ef.
    + destruct (open_convert fs (BORDER_IN ROOT)) as [img|] eqn:Eo.
      2:{ exfalso. apply Hb; done. }
      rewrite (transform_image_ok fs _ _ _ _ img s3 Eo). unfold ret.
      destruct (IH (total + npng fs (EDGES_IN ROOT) + npng fs (CORNERS_IN ROOT) +
                    npng fs (CENTERS_IN ROOT) + 1)
                   (s3 ++ [MakeParentDirs (border_out_path ROOT (tag v));
                           Saved (border_out_path ROOT (tag v))
                             (fst (transform_pixels img
                                (to_8bit (fst (opaque_frac v)) (snd (opaque_frac v)))
                                (to_8bit (fst (transparent_frac v)) (snd (transparent_frac v)))));
                           Processed (BORDER_IN ROOT) (border_out_path ROOT (tag v))
                             (snd (transform_pixels img
                                (to_8bit (fst (opaque_frac v)) (snd (opaque_frac v)))
                                (to_8bit (fst (transparent_frac v)) (snd (transparent_frac v)))))]))
        as [s' E]. unfold files_per_variant in E. rewrite Ef in E.
      rewrite E. eexists. f_equal. f_equal. lia.
    + unfold ret.
      destruct (IH (total + npng fs (EDGES_IN ROOT) + npng fs (CORNERS_IN ROOT) +
                    npng fs (CENTERS_IN ROOT) + 0) s3) as [s' E].
      unfold files_per_variant in E. rewrite Ef in E.
      rewrite E. eexists. f_equal. f_equal. lia.
Qed.

Ltac pf_ok :=
  match goal with
  | |- context [process_folder ?f ?i ?o ?a ?b ?s0] =>
      let E := fresh "E" in
      destruct (process_folder f i o a b s0) as [[?|?] ?] eqn:E;
      [cbv beta iota|eexists _, _; reflexivity]
  end.

Ltac pf_bad Hf :=
  match goal with
  | |- context [process_folder ?f ?i ?o ?a ?b ?s0] =>
      let e := fresh "e" in let s' := fresh "s'" in let E := fresh "E" in
      destruct (Hf o a b s0) as (e & s' & E); rewrite E; eexists _, _; reflexivity
  end.

Lemma variants_loop_fail (Hbad : bad_input fs ROOT) (v : variant) (vs : list variant)
    (total : nat) (s : list event) :
  exists e s', variants_loop fs ROOT (v :: vs) total s = (Exc e, s').
Proof.
  simpl. unfold bind.
  destruct Hbad as [(d & Hd & Hdir & Hn)|[Ef Eo]].
  - assert (Hf : forall o a b s0, exists e s', process_folder fs d o a b s0 = (Exc e, s'))
      by (intros; apply process_folder_fail; done).
    simpl in Hd. destruct Hd as [<-|[<-|[<-|[]]]].
    + pf_bad Hf.
    + pf_ok. pf_bad Hf.
    + pf_ok. pf_ok. pf_bad Hf.
  - pf_ok. pf_ok. pf_ok. rewrite Ef. unfold bind, transform_image. rewrite Eo.
    unfold raise. eexists _, _. reflexivity.
Qed.

End Batch.

(** X: when [process_folder] on an existing folder returns normally, it has
    created the output folder, every listed file whose name ends in [.png]
    (any case) decoded, each of them was transformed in listing order and
    saved under the same name in the output folder as the remapped image of
    that input, and the value returned is their number. *)
Theorem process_folder_returns (fs : filesystem) (in_dir out_dir : string) (oa ta : nat)
    (s : list event) (n : nat) (s' : list event)
    (Hdir : isdir fs in_dir = true)
    (Hrun : process_folder fs in_dir out_dir oa ta s = (Ok n, s')) :
  (forall name, In name (listdir fs in_dir) -> is_png name = true ->
     open_convert fs (join in_dir name) <> None) /\
  n = length (List.filter is_png (listdir fs in_dir)) /\
  exists added,
    s' = s ++ MakeDirs out_dir :: added /\
    saved_paths added = map (join out_dir) (List.filter is_png (listdir fs in_dir)) /\
    (forall p img, In (Saved p img) added ->
       exists name img0, In name (listdir fs in_dir) /\ is_png name = true /\
         p = join out_dir name /\
         open_convert fs (join in_dir name) = Some img0 /\ img = fst (transform_pixels img0 oa ta)).
Proof.
  assert (Hdec : forall name, In name (listdir fs in_dir) -> is_png name = true ->
                   open_convert fs (join in_dir name) <> None).
  { intros name Hn Hp Ho.
    destruct (process_folder_fail fs in_dir out_dir oa ta s Hdir
                (ex_intro _ name (conj Hn (conj Hp Ho)))) as (e & s2 & E).
    congruence. }
  split; [exact Hdec|].
  unfold process_folder in Hrun. rewrite Hdir in Hrun. simpl in Hrun. unfold bind, emit in Hrun.
  rewrite folder_loop_ok in Hrun by exact Hdec. injection Hrun as Hn Hs. subst n s'.
  split; [done|].
  exists (folder_events fs in_dir out_dir oa ta (listdir fs in_dir)).
  split; [|split].
  - rewrite <- app_assoc. done.
  - apply saved_paths_folder_events. exact Hdec.
  - intros p img Hin. unfold folder_events in Hin.
    apply in_flat_map in Hin as (name & Hn & Hin).
    apply filter_In in Hn as [Hn Hp].
    destruct (open_convert fs (join in_dir name)) as [img0|] eqn:Eo; [|destruct Hin].
    destruct Hin as [E|[E|[E|[]]]]; try discriminate.
    inversion E; subst. exists name, img0. done.
Qed.

Lemma process_folder_returns_witness :
  (isdir fs_ok "r/graphics/base/edge" = true /\
   process_folder fs_ok "r/graphics/base/edge" "r/graphics/a40/edge" 102 38 [] =
     (Ok 2, snd (process_folder fs_ok "r/graphics/base/edge" "r/graphics/a40/edge" 102 38 []))) /\
  2 = length (List.filter is_png (listdir fs_ok "r/graphics/base/edge")).
Proof.
  assert (Hd : isdir fs_ok "r/graphics/base/edge" = true) by reflexivity.
  assert (Hr : process_folder fs_ok "r/graphics/base/edge" "r/graphics/a40/edge" 102 38 [] =
     (Ok 2, snd (process_folder fs_ok "r/graphics/base/edge" "r/graphics/a40/edge" 102 38 [])))
    by reflexivity.
  split; [split; [exact Hd|exact Hr]|].
  exact (proj1 (proj2 (process_folder_returns fs_ok _ _ 102 38 [] _ _ Hd Hr))).
Defined.

Lemma main_ok_trace (fs : filesystem) (ROOT : string) (Hdec : inputs_decode fs ROOT)
    (s : list event) :
  exists s',
    main fs ROOT s = (Ok 0, s') /\
    last s' = Some (Done (length VARIANTS * files_per_variant fs ROOT) (length VARIANTS)) /\
    count_saved s' = count_saved s + length VARIANTS * files_per_variant fs ROOT.
Proof.
  unfold main, bind, emit, ret.
  destruct (variants_loop_ok fs ROOT Hdec VARIANTS 0 s) as [s1 E]. rewrite E.
  destruct (variants_loop_counts fs ROOT VARIANTS 0 s _ s1 E) as (added & -> & Hn).
  exists ((s ++ added) ++ [Done (0 + length VARIANTS * files_per_variant fs ROOT)
                                (length VARIANTS)]).
  split; [done|split].
  - rewrite last_snoc. done.
  - rewrite !count_saved_app. simpl in Hn |- *. unfold count_saved at 3. simpl. lia.
Qed.

Lemma main_fail (fs : filesystem) (ROOT : string) (s : list event) :
  bad_input fs ROOT -> exists e s', main fs ROOT s = (Exc e, s').
Proof.
  intros Hbad. unfold main, bind.
  destruct (variants_loop_fail fs ROOT Hbad (hd (mkVariant EmptyString (0, 1) (0, 1)) VARIANTS)
              (tl VARIANTS) 0 s) as (e & s' & E).
  change (hd (mkVariant EmptyString (0, 1) (0, 1)) VARIANTS :: tl VARIANTS) with VARIANTS in E.
  rewrite E. eexists _, _. done.
Qed.

(** X: when [main] returns (it then returns 0), every PNG file it read
    decoded, and each of the [len(VARIANTS)] variants saved one image per
    PNG file of the three existing input folders plus one for the border
    when it exists: the final line reports that many images, and the trace
    holds exactly that many saves. *)
Theorem main_completed_totals (fs : filesystem) (ROOT : string)
    (s : list event) (n : nat) (s' : list event)
    (Hrun : main fs ROOT s = (Ok n, s')) :
  n = 0 /\ inputs_decode fs ROOT /\
  last s' = Some (Done (length VARIANTS * files_per_variant fs ROOT) (length VARIANTS)) /\
  count_saved s' = count_saved s + length VARIANTS * files_per_variant fs ROOT.
Proof.
  assert (Hdec : inputs_decode fs ROOT).
  { split.
    - intros d Hd Hdir name Hn Hp Ho.
      destruct (main_fail fs ROOT s (or_introl (ex_intro _ d (conj Hd (conj Hdir
                  (ex_intro _ name (conj Hn (conj Hp Ho)))))))) as (e & s2 & E).
      congruence.
    - intros Hf Ho. destruct (main_fail fs ROOT s (or_intror (conj Hf Ho))) as (e & s2 & E).
      congruence. }
  destruct (main_ok_trace fs ROOT Hdec s) as (s2 & E & L & C).
  rewrite Hrun in E. injection E as -> <-. done.
Qed.

Lemma main_completed_totals_witness :
  main fs_ok "r" [] = (Ok 0, snd (main fs_ok "r" [])) /\
  last (snd (main fs_ok "r" [])) =
    Some (Done (length VARIANTS * files_per_variant fs_ok "r") (length VARIANTS)).
Proof.
  assert (Hr : main fs_ok "r" [] = (Ok 0, snd (main fs_ok "r" []))) by reflexivity.
  split; [exact Hr|].
  exact (proj1 (proj2 (proj2 (main_completed_totals fs_ok "r" [] 0 _ Hr)))).
Defined.

(** ** Where the script writes *)

Section Writes.

Variable fs : filesystem.

Lemma sw_ret {A} (a : A) (P : string -> Prop) : saves_within (ret a) P.
Proof. intros s r s' E. inversion E; subst. exists []. rewrite app_nil_r. done. Qed.

Lemma sw_raise {A} (msg : string) (P : string -> Prop) : saves_within (A:=A) (raise msg) P.
Proof. intros s r s' E. inversion E; subst. exists []. rewrite app_nil_r. done. Qed.

Lemma sw_emit (e : event) (P : string -> Prop) :
  (forall p img, e = Saved p img -> P p) -> saves_within (emit e) P.
Proof.
  intros He s r s' E. inversion E; subst. exists [e]. split; [done|].
  intros p img [Hp|[]]. apply (He p img). done.
Qed.

Lemma sw_bind {A B} (m : M A) (k : A -> M B) (P : string -> Prop) :
  saves_within m P -> (forall a, saves_within (k a) P) -> saves_within (bind m k) P.
Proof.
  intros Hm Hk s r s' E. unfold bind in E.
  destruct (m s) as [[a|e] s1] eqn:Em.
  - destruct (Hm _ _ _ Em) as (a1 & -> & H1).
    destruct (Hk a _ _ _ E) as (a2 & -> & H2).
    exists (a1 ++ a2). rewrite app_assoc. split; [done|].
    intros p img Hin. apply in_app_or in Hin as [Hin|Hin]; eauto.
  - inversion E; subst. eapply Hm. exact Em.
Qed.

Lemma sw_mono {A} (m : M A) (P Q : string -> Prop) :
  saves_within m P -> (forall p, P p -> Q p) -> saves_within m Q.
Proof.
  intros Hm HPQ s r s' E. destruct (Hm _ _ _ E) as (a & -> & H). eauto.
Qed.

Lemma sw_transform_image (in_path out_path : string) (oa ta : nat) :
  saves_within (transform_image fs in_path out_path oa ta) (fun p => p = out_path).
Proof.
  unfold transform_image. destruct (open_convert fs in_path) as [img|].
  - destruct (transform_pixels img oa ta) as [out changed].
    repeat (apply sw_bind; [apply sw_emit; intros ? ? E; inversion E; done|intros _]).
    apply sw_emit. intros ? ? E. discriminate.
  - apply sw_raise.
Qed.

Lemma sw_folder_loop (in_dir out_dir : string) (oa ta : nat) (names : list string) :
  forall count, saves_within (folder_loop fs in_dir out_dir oa ta names count)
    (fun p => exists n, In n names /\ is_png n = true /\ p = join out_dir n).
Proof.
  induction names as [|name names IH]; intros count; simpl.
  - apply sw_ret.
  - destruct (is_png name) eqn:Ep; simpl.
    + apply sw_bind.
      * eapply sw_mono; [apply sw_transform_image|]. simpl. intros p ->. eauto.
      * intros _. eapply sw_mono; [apply IH|]. intros p (n & ? & ? & ?). eauto.
    + eapply sw_mono; [apply IH|]. intros p (n & ? & ? & ?). eauto.
Qed.

Lemma sw_process_folder (d out_dir : string) (oa ta : nat) :
  saves_within (process_folder fs d out_dir oa ta)
    (fun p => isdir fs d = true /\
       exists n, In n (listdir fs d) /\ is_png n = true /\ p = join out_dir n).
Proof.
  unfold process_folder. destruct (isdir fs d) eqn:Ed; simpl.
  - apply sw_bind; [apply sw_emit; intros ? ? E; discriminate|]. intros _.
    eapply sw_mono; [apply sw_folder_loop|]. simpl. eauto.
  - apply sw_bind; [apply sw_emit; intros ? ? E; discriminate|]. intros _. apply sw_ret.
Qed.

Variable ROOT : string.

Lemma sw_variants_loop (vs : list variant) :
  forall total, saves_within (variants_loop fs ROOT vs total)
    (fun p => exists v, In v vs /\ variant_output fs ROOT v p).
Proof.
  induction vs as [|v vs IH]; intros total; simpl.
  - apply sw_ret.
  - assert (Hv : forall P : string -> Prop,
               (forall p, P p -> variant_output fs ROOT v p) ->
               forall p, P p -> exists v', (v = v' \/ In v' vs) /\ variant_output fs ROOT v' p)
      by (intros P HP p Hp; exists v; split; [left; done|apply HP; done]).
    apply sw_bind.
    { eapply sw_mono; [apply sw_process_folder|]. apply Hv.
      intros p (Hd & n & Hn & Hp & ->). left. eexists _, _, _.
      split; [left; done|]. done. }
    intros n1. apply sw_bind.
    { eapply sw_mono; [apply sw_process_folder|]. apply Hv.
      intros p (Hd & n & Hn & Hp & ->). left. eexists _, _, _.
      split; [right; left; done|]. done. }
    intros n2. apply sw_bind.
    { eapply sw_mono; [apply sw_process_folder|]. apply Hv.
      intros p (Hd & n & Hn & Hp & ->). left. eexists _, _, _.
      split; [right; right; left; done|]. done. }
    intros n3. apply sw_bind.
    { destruct (isfile fs (BORDER_IN ROOT)) eqn:Ef.
      - apply sw_bind; [|intros; apply sw_ret].
        eapply sw_mono; [apply sw_transform_image|]. apply Hv.
        intros p ->. right. done.
      - apply sw_ret. }
    intros n4. eapply sw_mono; [apply IH|]. intros p (v' & ? & ?). eauto.
Qed.

End Writes.

(** X: whatever its outcome (also when it raises half way), [main] only
    appends to its output, and every image it saves goes either to
    [<variant>/<folder>/<name>] for a file [<name>] ending in [.png] of the
    matching existing [base/<folder>], or to the variant's border file when
    the base border exists. *)
Theorem main_writes_only_outputs (fs : filesystem) (ROOT : string)
    (s : list event) (r : result nat) (s' : list event)
    (Hrun : main fs ROOT s = (r, s')) :
  exists added, s' = s ++ added /\
    forall p img, In (Saved p img) added ->
      exists v, In v VARIANTS /\ variant_output fs ROOT v p.
Proof.
  revert s r s' Hrun. unfold main.
  apply sw_bind; [apply sw_variants_loop|]. intros total.
  apply sw_bind; [apply sw_emit; intros ? ? E; discriminate|]. intros _. apply sw_ret.
Qed.

Lemma main_writes_only_outputs_witness :
  main fs_ok "r" [] = (fst (main fs_ok "r" []), snd (main fs_ok "r" [])) /\
  exists added, snd (main fs_ok "r" []) = [] ++ added.
Proof.
  split; [reflexivity|].
  destruct (main_writes_only_outputs fs_ok "r" [] _ _ eq_refl) as (added & E & _).
  exists added. exact E.
Defined.

(** ** The icon exporter *)

Section Exporter.

Import ExportIcons.

Lemma first_existing_some (e : env) (ps : list string) (p : string) :
  first_existing e ps = Some p <->
  exists pre post, ps = pre ++ p :: post /\ path_exists e p = true /\
                   forall q, In q pre -> path_exists e q = false.
Proof.
  split.
  - induction ps as [|q ps IH]; simpl; [done|].
    destruct (path_exists e q) eqn:Eq.
    + intros H. inversion H; subst. exists [], ps. done.
    + intros H. destruct (IH H) as (pre & post & -> & Hp & Hpre).
      exists (q :: pre), post. split; [done|split; [done|]].
      intros q' [<-|Hq']; auto.
  - intros (pre & post & -> & Hp & Hpre). induction pre as [|q pre IH]; simpl.
    + rewrite Hp. done.
    + rewrite (Hpre q (or_introl eq_refl)). apply IH. intros q' Hq'. apply Hpre. right. done.
Qed.

Lemma first_existing_none (e : env) (ps : list string) :
  first_existing e ps = None <-> forall q, In q ps -> path_exists e q = false.
Proof.
  induction ps as [|q ps IH]; simpl; [split; [intros _ ? []|done]|].
  destruct (path_exists e q) eqn:Eq; split.
  - done.
  - intros H. rewrite H in Eq; [done|left; done].
  - intros H q' [<-|Hq']; [done|]. apply IH; done.
  - intros H. apply IH. intros q' Hq'. apply H. right. done.
Qed.

Lemma join_nonempty (a b : string) : join a b <> EmptyString.
Proof. unfold join. destruct a; discriminate. Qed.

Lemma possible_paths_nonempty (e : env) (q : string) :
  In q (possible_paths e) -> q <> EmptyString.
Proof.
  simpl. intros [<-|[<-|[<-|[]]]]; try discriminate. apply join_nonempty.
Qed.

Lemma find_inkscape_nonempty (e : env) (p : string) :
  fst (find_inkscape e) = POk (Some p) -> p <> EmptyString.
Proof.
  unfold find_inkscape.
  destruct (first_existing e (possible_paths e)) as [q|] eqn:Ef.
  - simpl. intros H. inversion H; subst.
    apply first_existing_some in Ef as (pre & post & Hpp & _).
    apply (possible_paths_nonempty e). rewrite Hpp. apply in_or_app. right. left. done.
  - destruct (run e version_cmd) as [rc| | |]; simpl; try discriminate.
    destruct (Z.eqb rc 0); intros H; inversion H; discriminate.
Qed.

Lemma export_loop_ok (e : env) (p : string) (xs : list (nat * string)) :
  (forall x, In x xs -> exists rc, run e (export_cmd_of e p x) = Returned rc) ->
  forall c, export_loop e p xs c =
    (POk (c + length (List.filter (export_succeeds e p) xs)), map (export_cmd_of e p) xs).
Proof.
  induction xs as [|[dpi f] xs IH]; intros Hrc c.
  - simpl. rewrite Nat.add_0_r. done.
  - destruct (Hrc (dpi, f) (or_introl eq_refl)) as [rc E].
    assert (Hs : export_succeeds e p (dpi, f) = Z.eqb rc 0)
      by (unfold export_succeeds; rewrite E; done).
    cbn [export_loop List.filter map]. rewrite Hs. unfold export_svg_to_png.
    change (export_cmd p (svg_file e) (join (icons_dir e) f) dpi)
      with (export_cmd_of e p (dpi, f)).
    rewrite E. rewrite IH by (intros x Hx; apply Hrc; right; done).
    destruct (Z.eqb rc 0); simpl; f_equal; f_equal; lia.
Qed.

Lemma export_loop_ok_inv (e : env) (p : string) (xs : list (nat * string)) :
  forall c n cs, export_loop e p xs c = (POk n, cs) ->
  forall x, In x xs -> exists rc, run e (export_cmd_of e p x) = Returned rc.
Proof.
  induction xs as [|[dpi f] xs IH]; intros c n cs E x Hx; [destruct Hx|].
  simpl in E. unfold export_svg_to_png in E. unfold export_cmd_of.
  destruct (run e (export_cmd p (svg_file e) (join (icons_dir e) f) dpi)) as [rc| | |] eqn:Er;
    try discriminate.
  destruct (export_loop e p xs _) as [r' c2] eqn:E2. inversion E; subst.
  destruct Hx as [<-|Hx]; [eexists; exact Er|].
  eapply IH; [exact E2|exact Hx].
Qed.

Lemma export_loop_cmds (e : env) (p : string) (xs : list (nat * string)) :
  forall c cmd, In cmd (snd (export_loop e p xs c)) ->
  exists x, In x xs /\ cmd = export_cmd_of e p x.
Proof.
  induction xs as [|[dpi f] xs IH]; intros c cmd Hin; [destruct Hin|].
  simpl in Hin. unfold export_svg_to_png in Hin.
  destruct (run e (export_cmd p (svg_file e) (join (icons_dir e) f) dpi)) as [rc| | |];
    simpl in Hin.
  2, 3, 4: destruct Hin as [<-|[]]; exists (dpi, f); split; [left|]; done.
  match type of Hin with
  | context [export_loop e p xs ?c0] =>
      pose proof (IH c0) as IHc; destruct (export_loop e p xs c0) as [r' c2]
  end.
  simpl in Hin, IHc.
  destruct Hin as [<-|Hin]; [exists (dpi, f); split; [left|]; done|].
  destruct (IHc _ Hin) as (x & Hx & ->).
  exists x. split; [right|]; done.
Qed.

Lemma length_filter_le {A} (f : A -> bool) (l : list A) :
  length (List.filter f l) <= length l.
Proof. induction l as [|a l IH]; simpl; [done|]. destruct (f a); simpl; lia. Qed.

Lemma length_filter_all {A} (f : A -> bool) (l : list A) :
  length (List.filter f l) = length l <-> forall x, In x l -> f x = true.
Proof.
  induction l as [|a l IH]; simpl; [split; [intros _ ? []|done]|].
  pose proof (length_filter_le f l) as Hle.
  destruct (f a) eqn:Ea; simpl; split.
  - intros H x [<-|Hx]; [done|]. apply IH; [lia|done].
  - intros H. f_equal. apply IH. intros x Hx. apply H. right. done.
  - lia.
  - intros H. rewrite H in Ea; [done|left; done].
Qed.

End Exporter.

Section ExporterProps.

Import ExportIcons.

Lemma find_inkscape_cmds (e : env) :
  snd (find_inkscape e) = [] \/ snd (find_inkscape e) = [version_cmd].
Proof.
  unfold find_inkscape. destruct (first_existing e (possible_paths e)); [left; done|].
  right. destruct (run e version_cmd); done.
Qed.

(** X: [find_inkscape] returns the first candidate path that exists, without
    running anything; when none exists it runs [inkscape --version] once and
    returns ["inkscape"] exactly when that returns 0; it never returns the
    empty string, so [if not inkscape_path] only rejects [None]. *)
Theorem find_inkscape_spec (e : env) :
  (forall p, find_inkscape e = (POk (Some p), []) <->
     exists pre post, possible_paths e = pre ++ p :: post /\ path_exists e p = true /\
                      forall q, In q pre -> path_exists e q = false) /\
  ((forall q, In q (possible_paths e) -> path_exists e q = false) ->
     snd (find_inkscape e) = [version_cmd] /\
     (fst (find_inkscape e) = POk (Some "inkscape"%string) <-> run e version_cmd = Returned 0%Z)) /\
  (forall p, fst (find_inkscape e) = POk (Some p) -> p <> EmptyString).
Proof.
  split; [|split].
  - intros p. rewrite <- first_existing_some. unfold find_inkscape.
    destruct (first_existing e (possible_paths e)) as [q|].
    + split; intros H; inversion H; done.
    + split; [|discriminate]. destruct (run e version_cmd) as [rc| | |]; intros H; inversion H.
  - intros H. apply first_existing_none in H. unfold find_inkscape. rewrite H.
    destruct (run e version_cmd) as [rc| | |]; simpl; (split; [done|]);
      split; intros E; try discriminate.
    + revert E. destruct (Z.eqb_spec rc 0%Z); intros E; [subst; done|discriminate].
    + inversion E; subst. done.
  - apply find_inkscape_nonempty.
Qed.

(** X: the exporter exits with status 0 exactly when [icons/icons.svg]
    exists, Inkscape is found, and each of the three export commands, 24, 48
    and 96 DPI, returns 0. *)
Theorem export_main_status (e : env) :
  status (fst (main e)) = 0 <->
  path_exists e (svg_file e) = true /\
  exists p, fst (find_inkscape e) = POk (Some p) /\
    forall x, In x exports -> run e (export_cmd_of e p x) = Returned 0%Z.
Proof.
  split.
  - intros Hst. unfold main in Hst.
    destruct (path_exists e (svg_file e)) eqn:Es; cbn [negb status fst] in Hst;
      [|discriminate].
    destruct (find_inkscape e) as [r c1] eqn:Ef.
    destruct r as [[p|]|]; cbn [status fst] in Hst; try discriminate.
    destruct (String.eqb p EmptyString); cbn [status fst] in Hst; [discriminate|].
    destruct (export_loop e p exports 0) as [r' c2] eqn:El.
    destruct r' as [n|]; cbn [status fst] in Hst; [|discriminate].
    destruct (n <? length exports) eqn:Elt; cbn [status fst] in Hst; [discriminate|].
    split; [done|]. exists p. split; [done|].
    pose proof (export_loop_ok_inv e p exports 0 n _ El) as Hrc.
    rewrite (export_loop_ok e p exports Hrc 0) in El.
    apply (f_equal fst) in El. cbn [fst] in El.
    assert (Hn : 0 + length (List.filter (export_succeeds e p) exports) = n)
      by (injection El; intros E; exact E).
    apply Nat.ltb_ge in Elt.
    pose proof (length_filter_le (export_succeeds e p) exports).
    assert (Hall : forall x, In x exports -> export_succeeds e p x = true)
      by (apply length_filter_all; lia).
    intros x Hx. destruct (Hrc x Hx) as [rc Erc].
    specialize (Hall x Hx). unfold export_succeeds in Hall. rewrite Erc in Hall.
    apply Z.eqb_eq in Hall. subst rc. exact Erc.
  - intros (Hs & p & Hf & Hall). unfold main. rewrite Hs. cbn [negb].
    pose proof (find_inkscape_nonempty e p Hf) as Hne.
    destruct (find_inkscape e) as [r c1]. simpl in Hf. subst r.
    destruct (String.eqb_spec p EmptyString) as [->|_]; [done|].
    rewrite export_loop_ok by (intros x Hx; eexists; apply Hall; exact Hx).
    replace (length (List.filter (export_succeeds e p) exports)) with (length exports).
    + done.
    + symmetry. apply length_filter_all. intros x Hx.
      unfold export_succeeds. rewrite Hall by exact Hx. done.
Qed.

(** X: once the SVG exists and Inkscape is found, and no export command
    raises, the exporter runs the three export commands in order, also after
    a failed one, and exits with status 1 when fewer than three returned 0. *)
Theorem export_main_attempts_all (e : env) (p : string)
    (Hsvg : path_exists e (svg_file e) = true)
    (Hfind : fst (find_inkscape e) = POk (Some p))
    (Hrun : forall x, In x exports -> exists rc, run e (export_cmd_of e p x) = Returned rc) :
  main e =
  (if length (List.filter (export_succeeds e p) exports) <? length exports
   then SysExit 1 else Normal,
   snd (find_inkscape e) ++ map (export_cmd_of e p) exports).
Proof.
  pose proof (find_inkscape_nonempty e p Hfind) as Hne.
  unfold main. rewrite Hsvg. cbn [negb].
  destruct (find_inkscape e) as [r c1]. cbn [fst snd] in Hfind |- *. subst r.
  destruct (String.eqb_spec p EmptyString) as [->|_]; [done|].
  rewrite export_loop_ok by exact Hrun. done.
Qed.

Lemma export_main_attempts_all_witness :
  (path_exists (env_sample 1%Z) (svg_file (env_sample 1%Z)) = true /\
   fst (find_inkscape (env_sample 1%Z)) = POk (Some "inkscape"%string) /\
   (forall x, In x exports ->
      exists rc, run (env_sample 1%Z) (export_cmd_of (env_sample 1%Z) "inkscape" x) = Returned rc)) /\
  fst (main (env_sample 1%Z)) = SysExit 1.
Proof.
  assert (Hrun : forall x, In x exports ->
      exists rc, run (env_sample 1%Z) (export_cmd_of (env_sample 1%Z) "inkscape" x) = Returned rc).
  { intros x Hx. simpl in Hx. destruct Hx as [<-|[<-|[<-|[]]]]; eexists; reflexivity. }
  split; [split; [reflexivity|split; [reflexivity|exact Hrun]]|].
  rewrite (export_main_attempts_all (env_sample 1%Z) "inkscape" eq_refl eq_refl Hrun).
  reflexivity.
Defined.

(** X: the exporter exits with status 0 or 1; without [icons/icons.svg] it
    exits 1 before running any command; and the only commands it ever runs
    are [inkscape --version] and the three export commands of the
    executable [find_inkscape] returned. *)
Theorem export_main_commands (e : env) :
  (status (fst (main e)) = 0 \/ status (fst (main e)) = 1) /\
  (path_exists e (svg_file e) = false -> main e = (SysExit 1, [])) /\
  (forall cmd, In cmd (snd (main e)) ->
     cmd = version_cmd \/
     exists p x, fst (find_inkscape e) = POk (Some p) /\ In x exports /\
                 cmd = export_cmd_of e p x).
Proof.
  assert (Hc1 : forall cmd, In cmd (snd (find_inkscape e)) -> cmd = version_cmd).
  { intros cmd Hin. destruct (find_inkscape_cmds e) as [E|E]; rewrite E in Hin;
      [destruct Hin|destruct Hin as [<-|[]]; done]. }
  split; [|split].
  - unfold main. destruct (negb (path_exists e (svg_file e))); [right; done|].
    destruct (find_inkscape e) as [[[p|]|] c1]; try (right; done).
    destruct (String.eqb p EmptyString); [right; done|].
    destruct (export_loop e p exports 0) as [[n|] c2]; [|right; done].
    destruct (n <? length exports); [right|left]; done.
  - intros Hs. unfold main. rewrite Hs. done.
  - intros cmd. unfold main. destruct (negb (path_exists e (svg_file e))); [intros []|].
    destruct (find_inkscape e) as [r c1] eqn:Ef. simpl in Hc1.
    assert (Hex : forall p, r = POk (Some p) -> In cmd (snd (export_loop e p exports 0)) ->
               cmd = version_cmd \/ exists p' x, fst (find_inkscape e) = POk (Some p') /\
                 In x exports /\ cmd = export_cmd_of e p' x).
    { intros p -> Hin. right. destruct (export_loop_cmds e p exports 0 cmd Hin) as (x & Hx & ->).
      exists p, x. rewrite Ef. done. }
    destruct r as [[p|]|]; cbn [snd]; try (intros Hin; left; apply Hc1; exact Hin).
    destruct (String.eqb p EmptyString); cbn [snd]; [intros Hin; left; apply Hc1; exact Hin|].
    specialize (Hex p eq_refl).
    destruct (export_loop e p exports 0) as [[n|] c2]; cbn [snd] in Hex |- *;
      intros Hin; apply in_app_or in Hin as [Hin|Hin];
      first [left; apply Hc1; exact Hin
            |rewrite Ef in Hex; cbn [fst] in Hex |- *; apply Hex; exact Hin].
Qed.

End ExporterProps.

(** ** The detector on transparent images *)

Lemma count_alpha_pos (l : list pixel) (a : nat) :
  0 < count_alpha l a -> exists p, In p l /\ alpha p = a.
Proof.
  unfold count_alpha. intros H.
  destruct (List.filter (fun p => alpha p =? a) l) as [|p r] eqn:E; [simpl in H; lia|].
  assert (Hp : In p (List.filter (fun p => alpha p =? a) l)) by (rewrite E; left; done).
  apply filter_In in Hp as [Hp Ha]. apply Nat.eqb_eq in Ha. eauto.
Qed.

(** X: the detector reports no mode at all exactly when every pixel is fully
    transparent, and it never reports a low mode without a high one. *)
Theorem detect_no_modes (img : image) (Hwf : wf_image img) :
  (detect_alpha_modes img = (None, None) <-> Forall (fun p => alpha p = 0) (data img)) /\
  (forall m, detect_alpha_modes img <> (None, Some m)).
Proof.
  rewrite detect_sorted.
  pose proof (In_sorted img Hwf) as Hin.
  destruct (sort_desc (non_zero (alpha_hist img))) as [|[a0 c0] rest] eqn:Es.
  - split; [|intros m; discriminate]. split; [intros _|done].
    apply List.Forall_forall. intros p Hp.
    destruct (Nat.eq_dec (alpha p) 0) as [|Hne]; [done|exfalso].
    apply (proj2 (Hin (alpha p) (count_alpha (data img) (alpha p)))).
    split; [lia|split; [apply count_alpha_In; done|done]].
  - assert (Hs : modes_of_sorted ((a0, c0) :: rest) <> (None, None) /\
                 forall m, modes_of_sorted ((a0, c0) :: rest) <> (None, Some m)).
    { unfold modes_of_sorted. destruct rest as [|[a1 c1] r]; [split; discriminate|].
      destruct (a1 <=? a0); split; discriminate. }
    destruct Hs as [Hs1 Hs2]. split; [|exact Hs2]. split; [done|].
    intros Hall. exfalso.
    destruct (proj1 (Hin a0 c0) (or_introl eq_refl)) as (Ha & Hc & ->).
    destruct (count_alpha_pos _ _ Hc) as (p & Hp & Hpa).
    rewrite List.Forall_forall in Hall. specialize (Hall p Hp). lia.
Qed.

Lemma detect_no_modes_witness :
  wf_image img_clear /\ detect_alpha_modes img_clear = (None, None).
Proof.
  assert (Hw : wf_image img_clear) by wf_tac.
  split; [exact Hw|].
  apply (proj2 (proj1 (detect_no_modes img_clear Hw))).
  repeat constructor.
Defined.

(** ** The batch as a sequence of units of work *)

Section Units.

Variable fs : filesystem.

Lemma all_ok_app (L1 L2 : list (string * string)) :
  all_ok fs (L1 ++ L2) = all_ok fs L1 && all_ok fs L2.
Proof. unfold all_ok. apply forallb_app. Qed.

Lemma take_ok_app_ok (L1 L2 : list (string * string)) :
  all_ok fs L1 = true -> take_ok fs (L1 ++ L2) = L1 ++ take_ok fs L2.
Proof.
  induction L1 as [|u L1 IH]; simpl; [done|].
  unfold all_ok. simpl. destruct (decodes fs u); simpl; [|discriminate].
  intros H. rewrite IH by exact H. done.
Qed.

Lemma take_ok_app_bad (L1 L2 : list (string * string)) :
  all_ok fs L1 = false -> take_ok fs (L1 ++ L2) = take_ok fs L1.
Proof.
  induction L1 as [|u L1 IH]; simpl; [discriminate|].
  unfold all_ok. simpl. destruct (decodes fs u); simpl; [|done].
  intros H. rewrite IH by exact H. done.
Qed.

Lemma processed_of_app (a b : list event) :
  processed_of (a ++ b) = processed_of a ++ processed_of b.
Proof. unfold processed_of. apply flat_map_app. Qed.

Lemma runs_ret {A} (a : A) : runs fs (ret a) [].
Proof. intros s. exists (Ok a), []. rewrite app_nil_r. done. Qed.

Lemma runs_emit (e : event) :
  processed_of [e] = [] -> saved_paths [e] = [] -> runs fs (emit e) [].
Proof. intros Hp Hs s. exists (Ok tt), [e]. done. Qed.

Lemma runs_bind {A B} (m : M A) (k : A -> M B) (L1 L2 : list (string * string)) :
  runs fs m L1 -> (forall a, runs fs (k a) L2) -> runs fs (bind m k) (L1 ++ L2).
Proof.
  intros Hm Hk s. destruct (Hm s) as (r1 & a1 & E1 & P1 & S1 & R1).
  unfold bind. rewrite E1. destruct r1 as [a|e].
  - destruct (Hk a (s ++ a1)) as (r2 & a2 & E2 & P2 & S2 & R2).
    exists r2, (a1 ++ a2). rewrite E2, app_assoc.
    assert (T1 : take_ok fs L1 = L1)
      by (rewrite <- (app_nil_r L1) at 1; rewrite take_ok_app_ok by exact R1; apply app_nil_r).
    rewrite processed_of_app, saved_paths_app, P1, P2, S1, S2, take_ok_app_ok, T1 by exact R1.
    rewrite map_app. split; [done|split; [done|split; [done|]]].
    rewrite all_ok_app, R1. simpl. exact R2.
  - exists (Exc e), a1. rewrite take_ok_app_bad by exact R1.
    split; [done|split; [done|split; [done|]]]. rewrite all_ok_app, R1. simpl. done.
Qed.

Lemma runs_transform_image (in_path out_path : string) (oa ta : nat) :
  runs fs (transform_image fs in_path out_path oa ta) [(in_path, out_path)].
Proof.
  intros s. unfold take_ok, all_ok, decodes. simpl.
  destruct (open_convert fs in_path) as [img|] eqn:Eo.
  - exists (Ok tt), [MakeParentDirs out_path;
                     Saved out_path (fst (transform_pixels img oa ta));
                     Processed in_path out_path (snd (transform_pixels img oa ta))].
    rewrite (transform_image_ok fs _ _ oa ta img s Eo). done.
  - exists (Exc (String.append "cannot identify image file " in_path)), [].
    unfold transform_image. rewrite Eo. unfold raise. rewrite app_nil_r. done.
Qed.

Lemma runs_folder_loop (in_dir out_dir : string) (oa ta : nat) (names : list string) :
  forall count, runs fs (folder_loop fs in_dir out_dir oa ta names count)
    (map (fun n => (join in_dir n, join out_dir n)) (List.filter is_png names)).
Proof.
  induction names as [|name names IH]; intros count; simpl.
  - apply runs_ret.
  - destruct (is_png name); simpl.
    + apply (runs_bind _ _ [(join in_dir name, join out_dir name)]).
      * apply runs_transform_image.
      * intros _. apply IH.
    + apply IH.
Qed.

Lemma runs_process_folder (d out_dir : string) (oa ta : nat) :
  runs fs (process_folder fs d out_dir oa ta) (folder_units fs d out_dir).
Proof.
  unfold process_folder, folder_units. destruct (isdir fs d); simpl.
  - apply (runs_bind _ _ []); [apply runs_emit; done|]. intros _. apply runs_folder_loop.
  - apply (runs_bind _ _ [] []); [apply runs_emit; done|]. intros _. apply runs_ret.
Qed.

Variable ROOT : string.

Lemma runs_variants_loop (vs : list variant) :
  forall total, runs fs (variants_loop fs ROOT vs total) (flat_map (variant_units fs ROOT) vs).
Proof.
  induction vs as [|v vs IH]; intros total; simpl.
  - apply runs_ret.
  - unfold variant_units. rewrite <- !app_assoc.
    apply runs_bind; [apply runs_process_folder|]. intros n1.
    apply runs_bind; [apply runs_process_folder|]. intros n2.
    apply runs_bind; [apply runs_process_folder|]. intros n3.
    apply runs_bind; [|intros n4; apply IH].
    destruct (isfile fs (BORDER_IN ROOT)).
    + rewrite <- (app_nil_r [(BORDER_IN ROOT, border_out_path ROOT (tag v))]).
      apply runs_bind; [apply runs_transform_image|]. intros _. apply runs_ret.
    + apply runs_ret.
Qed.

Lemma runs_main : runs fs (main fs ROOT) (main_units fs ROOT).
Proof.
  unfold main, main_units. rewrite <- (app_nil_r (flat_map (variant_units fs ROOT) VARIANTS)).
  apply runs_bind; [apply runs_variants_loop|]. intros total.
  apply (runs_bind _ _ [] []); [apply runs_emit; done|]. intros _. apply runs_ret.
Qed.

End Units.

(** C4 (as the code does it). No step catches an exception.  [main] works
    through its units of work ([main_units]: the PNG files of the three
    input folders and the border, variant after variant) in order.  A PNG
    file of an input folder that cannot be decoded raises out of
    [process_folder], the files listed after it being never attempted.  When
    a unit of [main] cannot be decoded, its [transform_image] raises, the
    exception leaves [main], and the process exits with status 1; only units
    before it, in order, were processed or saved, and none of the later
    files, folders or variants is attempted.  [main] returns 0 when it
    completes, after processing every unit. *)
Theorem batch_abort (fs : filesystem) (ROOT : string) :
  (forall in_dir out_dir oa ta names1 bad names2 s,
     isdir fs in_dir = true -> listdir fs in_dir = names1 ++ bad :: names2 ->
     (forall n, In n names1 -> is_png n = true -> open_convert fs (join in_dir n) <> None) ->
     is_png bad = true -> open_convert fs (join in_dir bad) = None ->
     exists e added,
       process_folder fs in_dir out_dir oa ta s = (Exc e, s ++ added) /\
       (forall p img, In (Saved p img) added ->
          exists n, In n names1 /\ p = join out_dir n)) /\
  (forall s pre i o post,
     main_units fs ROOT = pre ++ (i, o) :: post ->
     (forall u, In u pre -> open_convert fs (fst u) <> None) ->
     open_convert fs i = None ->
     exists e added,
       main fs ROOT s = (Exc e, s ++ added) /\
       exit_status (Exc e) = 1 /\
       (exists rest, pre = processed_of added ++ rest) /\
       saved_paths added = map snd (processed_of added)) /\
  (forall s n s', main fs ROOT s = (Ok n, s') ->
     n = 0 /\ exists added, s' = s ++ added /\ processed_of added = main_units fs ROOT).
Proof.
  split; [|split].
  - intros in_dir out_dir oa ta names1 bad names2 s Hdir Hls Hok Hpng Hbad.
    unfold process_folder. rewrite Hdir. simpl. unfold bind, emit.
    rewrite Hls.
    destruct (folder_loop_abort fs in_dir out_dir oa ta names1 bad names2 Hok Hpng Hbad 0
                (s ++ [MakeDirs out_dir])) as (e & added & E & Hs).
    rewrite E, <- app_assoc. eexists _, _. split; [done|].
    intros p img [Hin|Hin]; [discriminate|]. apply (Hs p img Hin).
  - intros s pre i o post Hu Hpre Hi.
    assert (Hpre_ok : all_ok fs pre = true).
    { unfold all_ok. apply forallb_forall. intros u Hu'. unfold decodes.
      destruct (open_convert fs (fst u)) eqn:E; [done|]. exfalso. apply (Hpre u Hu'). done. }
    assert (Htake : take_ok fs (main_units fs ROOT) = pre).
    { rewrite Hu, take_ok_app_ok by exact Hpre_ok. simpl. unfold decodes. simpl. rewrite Hi.
      apply app_nil_r. }
    assert (Hbad : all_ok fs (main_units fs ROOT) = false).
    { rewrite Hu, all_ok_app. unfold all_ok at 2. simpl. unfold decodes at 1. simpl.
      rewrite Hi, andb_false_r. done. }
    destruct (runs_main fs ROOT s) as (r & added & E & P & S & R).
    destruct r as [n|e]; [rewrite Hbad in R; discriminate|].
    exists e, added. split; [exact E|split; [done|]].
    rewrite P, Htake. split; [exists []; rewrite app_nil_r; done|]. rewrite S, Htake. done.
  - intros s n s' Hrun.
    destruct (runs_main fs ROOT s) as (r & added & E & P & S & R).
    rewrite Hrun in E. injection E as <- ->.
    assert (Htake : take_ok fs (main_units fs ROOT) = main_units fs ROOT).
    { rewrite <- (app_nil_r (main_units fs ROOT)) at 1.
      rewrite take_ok_app_ok by exact R. apply app_nil_r. }
    split.
    + unfold main, bind in Hrun.
      destruct (variants_loop fs ROOT VARIANTS 0 s) as [[total|e] s2]; [|discriminate].
      inversion Hrun. done.
    + exists added. rewrite P, Htake. done.
Qed.

Lemma batch_abort_witness :
  main_units fs_cex "r" =
    [] ++ ("r/graphics/base/edge/a.png"%string, "r/graphics/a40_15/edge/a.png"%string)
          :: tl (main_units fs_cex "r") /\
  (forall u : string * string, In u [] -> open_convert fs_cex (fst u) <> None) /\
  open_convert fs_cex "r/graphics/base/edge/a.png" = None /\
  exists e added, main fs_cex "r" [] = (Exc e, [] ++ added) /\ exit_status (Exc e) = 1.
Proof.
  assert (Hu : main_units fs_cex "r" =
    [] ++ ("r/graphics/base/edge/a.png"%string, "r/graphics/a40_15/edge/a.png"%string)
          :: tl (main_units fs_cex "r")) by reflexivity.
  assert (Hp : forall u : string * string, In u [] -> open_convert fs_cex (fst u) <> None) by (intros u []).
  assert (Hi : open_convert fs_cex "r/graphics/base/edge/a.png" = None) by reflexivity.
  split; [exact Hu|split; [exact Hp|split; [exact Hi|]]].
  destruct (proj1 (proj2 (batch_abort fs_cex "r")) [] [] _ _ _ Hu Hp Hi)
    as (e & added & E & X & _).
  exists e, added. split; [exact E|exact X].
Defined.
